(** * The UAVSAR tile endpoint: tile address -> Web Mercator box -> export proxy

    Shallow embedding of the route handler [GET] of the tile endpoint and of
    the three numeric helpers it is built on ([tile2lon], [tile2lat],
    [lonLatToWebMercator]).

    Numbers.  The source computes on IEEE-754 doubles, and the helpers
    are embedded twice.

    [Module Double] is the code with its own arithmetic: binary64
    operations and comparisons, the literals of the source as doubles,
    and the functions ECMAScript leaves to the engine ([**], [Math.exp],
    [Math.atan], [Math.tan], [Math.log]) as parameters.  What is said
    about the bits of a result (which double comes out, where two edges
    coincide, where an intermediate value overflows) is proved there.

    The definitions at top level read every operator and every [Math.*]
    call as the real function it approximates: [+ - * /] are the field
    operations of [R], [2 ** z] is [Rpower 2 z], [Math.exp], [Math.atan],
    [Math.tan], [Math.log], [Math.PI] are [exp], [atan], [tan], [ln],
    [PI].  Rounding, overflow and underflow are outside this reading; it
    carries the statements that hold with a margin far above the rounding
    of doubles, each on a range of inputs where the doubles do not
    overflow. *)

From Stdlib Require Import Floats.
From Stdlib Require Import Reals Lra Lia ZArith List String Ascii Bool.
From Stdlib Require Import Machin DecimalString NArith Sorting Permutation.
Import ListNotations.

#[local] Set Warnings "-inexact-float".

Local Open Scope R_scope.

(** ** Constants of the module *)

Definition TILE_SIZE : Z := 256.
Definition EARTH_RADIUS : R := 6378137.
Definition ORIGIN_SHIFT : R := PI * EARTH_RADIUS.

(** ** The numeric helpers *)

(** [function tile2lon(x, z) { return (x / 2 ** z) * 360 - 180; }] *)
Definition tile2lon (x z : R) : R :=
  (x / Rpower 2 z) * 360 - 180.

(** [const n = Math.PI - (2 * Math.PI * y) / 2 ** z;] *)
Definition tile_n (y z : R) : R :=
  PI - (2 * PI * y) / Rpower 2 z.

(** [return (180 / Math.PI) * Math.atan(0.5 * (Math.exp(n) - Math.exp(-n)));] *)
Definition tile2lat (y z : R) : R :=
  let n := tile_n y z in
  (180 / PI) * atan (0.5 * (exp n - exp (- n))).

(** [const clampedLat = Math.max(Math.min(lat, 89.9999), -89.9999);] *)
Definition clampedLat (lat : R) : R :=
  Rmax (Rmin lat 89.9999) (-89.9999).

(** The argument handed to [Math.tan] in [lonLatToWebMercator]. *)
Definition mercatorAngle (lat : R) : R :=
  ((90 + clampedLat lat) * PI) / 360.

Record Point : Type := mkPoint { pt_x : R; pt_y : R }.

(** [function lonLatToWebMercator(lon, lat)] *)
Definition lonLatToWebMercator (lon lat : R) : Point :=
  let x := (lon * ORIGIN_SHIFT) / 180 in
  let y := ln (tan (mercatorAngle lat)) * EARTH_RADIUS in
  {| pt_x := x; pt_y := y |}.

(** ** The box computed by the handler (lines 45-51 of the route) *)

Record BBox : Type := mkBBox { minX : R; minY : R; maxX : R; maxY : R }.

Definition tileBBox (zoom tileX tileY : R) : BBox :=
  let north := tile2lat tileY zoom in
  let south := tile2lat (tileY + 1) zoom in
  let west := tile2lon tileX zoom in
  let east := tile2lon (tileX + 1) zoom in
  let sw := lonLatToWebMercator west south in
  let ne := lonLatToWebMercator east north in
  {| minX := pt_x sw; minY := pt_y sw; maxX := pt_x ne; maxY := pt_y ne |}.

(** Where the real-valued reading of [Math.log(Math.tan(...))] is inside
    the domain of both functions: the tangent is away from its pole and its
    value is positive.  Outside of it the doubles give [NaN] or an
    infinity. *)
Definition mercatorDefined (lat : R) : Prop :=
  cos (mercatorAngle lat) <> 0 /\ 0 < tan (mercatorAngle lat).

(** ** The algorithm in the words of the specification *)

Module Spec.

Definition R_earth : R := 6378137.

(** lon(col, zoom) = col / 2^zoom * 360 - 180 *)
Definition lon (col zoom : R) : R := col / Rpower 2 zoom * 360 - 180.

(** n = pi - 2 pi row / 2^zoom; lat = (180/pi) atan(0.5 (e^n - e^(-n))) *)
Definition lat (row zoom : R) : R :=
  let n := PI - 2 * PI * row / Rpower 2 zoom in
  (180 / PI) * atan (0.5 * (exp n - exp (- n))).

(** lat clamped to [-89.9999, 89.9999] *)
Definition clamp (l : R) : R :=
  if Rlt_dec l (-89.9999) then -89.9999
  else if Rlt_dec 89.9999 l then 89.9999 else l.

(** x = lon R pi / 180 *)
Definition projX (lo : R) : R := lo * R_earth * PI / 180.

(** y = R ln(tan(pi/4 + lat pi / 360)), lat clamped first *)
Definition projY (la : R) : R :=
  R_earth * ln (tan (PI / 4 + clamp la * PI / 360)).

(** minX = west.x, minY = south.y, maxX = east.x, maxY = north.y *)
Definition computeProjectedBBox (zoom column row : R) : BBox :=
  let west := lon column zoom in
  let east := lon (column + 1) zoom in
  let north := lat row zoom in
  let south := lat (row + 1) zoom in
  {| minX := projX west; minY := projY south;
     maxX := projX east; maxY := projY north |}.

End Spec.

(** ** The same helpers on binary64 doubles

    The source computes on doubles.  [Module Double] is the code with its
    own arithmetic: [+ - * /] and the comparisons are those of IEEE 754
    binary64 (the primitive floats), a literal is the double the source
    text denotes, [Math.PI] is the double 3.141592653589793.  What
    ECMAScript leaves to the engine ([**], [Math.exp], [Math.atan],
    [Math.tan], [Math.log] return "implementation-approximated" values)
    is a parameter. *)

Module Double.

Local Open Scope float_scope.

Definition Math_PI : float := 3.141592653589793.
Definition EARTH_RADIUS : float := 6378137.
Definition ORIGIN_SHIFT : float := Math_PI * EARTH_RADIUS.

(** [Math.min] of two numbers: NaN as soon as one is NaN, and -0 below
    +0. *)
Definition Math_min (a b : float) : float :=
  if is_nan a || is_nan b then nan
  else if a <? b then a
  else if b <? a then b
  else if get_sign a then a else b.

(** [Math.max] of two numbers: NaN as soon as one is NaN, and +0 above
    -0. *)
Definition Math_max (a b : float) : float :=
  if is_nan a || is_nan b then nan
  else if b <? a then a
  else if a <? b then b
  else if get_sign a then b else a.

(** [const clampedLat = Math.max(Math.min(lat, 89.9999), -89.9999);] *)
Definition clampedLat (lat : float) : float :=
  Math_max (Math_min lat 89.9999) (-89.9999).

Record Point : Type := mkPoint { pt_x : float; pt_y : float }.

Record BBox : Type := mkBBox {
  minX : float; minY : float; maxX : float; maxY : float
}.

Section MathLibrary.

(** The engine: [x ** y] and the four functions of [Math] the helpers
    call. *)
Variable Math_pow : float -> float -> float.
Variable Math_exp Math_atan Math_tan Math_log : float -> float.

(** [function tile2lon(x, z) { return (x / 2 ** z) * 360 - 180; }] *)
Definition tile2lon (x z : float) : float :=
  (x / Math_pow 2 z) * 360 - 180.

(** [function tile2lat(y, z)] *)
Definition tile2lat (y z : float) : float :=
  let n := Math_PI - (2 * Math_PI * y) / Math_pow 2 z in
  (180 / Math_PI) * Math_atan (0.5 * (Math_exp n - Math_exp (- n))).

(** [function lonLatToWebMercator(lon, lat)] *)
Definition lonLatToWebMercator (lon lat : float) : Point :=
  let x := (lon * ORIGIN_SHIFT) / 180 in
  let clamped := clampedLat lat in
  let y := Math_log (Math_tan (((90 + clamped) * Math_PI) / 360)) * EARTH_RADIUS in
  {| pt_x := x; pt_y := y |}.

(** Lines 45-51 of the route. *)
Definition tileBBox (zoom tileX tileY : float) : BBox :=
  let north := tile2lat tileY zoom in
  let south := tile2lat (tileY + 1) zoom in
  let west := tile2lon tileX zoom in
  let east := tile2lon (tileX + 1) zoom in
  let sw := lonLatToWebMercator west south in
  let ne := lonLatToWebMercator east north in
  {| minX := pt_x sw; minY := pt_y sw; maxX := pt_x ne; maxY := pt_y ne |}.

End MathLibrary.

Local Close Scope float_scope.

End Double.

(** ** The algorithm of the specification, evaluated on doubles

    The formulas of the specification with each operator read as the
    operation on doubles, from left to right.  For x the specification
    gives two forms, [projX_words] and [projX_words']; [projX] and [projY]
    are the forms in the order the code evaluates them. *)

Module DoubleSpec.

Local Open Scope float_scope.

Definition PI : float := 3.141592653589793.
Definition R_earth : float := 6378137.

(** lat clamped to [-89.9999, 89.9999] *)
Definition clamp (lat : float) : float :=
  if lat <? -89.9999 then -89.9999
  else if 89.9999 <? lat then 89.9999 else lat.

(** x = lon R pi / 180 *)
Definition projX_words (lon : float) : float := lon * R_earth * PI / 180.

(** x = lon / 180 (R pi) *)
Definition projX_words' (lon : float) : float := lon / 180 * (R_earth * PI).

(** x = lon (pi R) / 180, the product pi R taken first *)
Definition projX (lon : float) : float := lon * (PI * R_earth) / 180.

Section MathLibrary.

Variable Math_pow : float -> float -> float.
Variable Math_exp Math_atan Math_tan Math_log : float -> float.

(** lon(col, zoom) = col / 2^zoom * 360 - 180 *)
Definition lon (col zoom : float) : float := col / Math_pow 2 zoom * 360 - 180.

(** n = pi - 2 pi row / 2^zoom; lat = (180/pi) atan(0.5 (e^n - e^(-n))) *)
Definition lat (row zoom : float) : float :=
  let n := PI - 2 * PI * row / Math_pow 2 zoom in
  (180 / PI) * Math_atan (0.5 * (Math_exp n - Math_exp (- n))).

(** y = ln(tan((90 + lat) pi / 360)) R, lat clamped first *)
Definition projY (la : float) : float :=
  Math_log (Math_tan ((90 + clamp la) * PI / 360)) * R_earth.

(** minX = west.x, minY = south.y, maxX = east.x, maxY = north.y *)
Definition computeProjectedBBox (zoom column row : float) : Double.BBox :=
  let west := lon column zoom in
  let east := lon (column + 1) zoom in
  let north := lat row zoom in
  let south := lat (row + 1) zoom in
  {| Double.minX := projX west; Double.minY := projY south;
     Double.maxX := projX east; Double.maxY := projY north |}.

End MathLibrary.

Local Close Scope float_scope.

End DoubleSpec.

(** ** Auxiliary definitions for the proofs on doubles *)

Local Open Scope float_scope.

(** An integer as a double, for an integer from 0 to 2^53. *)
Definition doubleOfZ (z : Z) : float := of_uint63 (Uint63Axioms.of_Z z).

(** The integer a double denotes, if it is one. *)
Definition integerOfDouble (f : float) : option Z :=
  match Prim2SF f with
  | S754_zero _ => Some 0%Z
  | S754_finite s m e =>
      let magnitude :=
        if (0 <=? e)%Z then Some (Z.pos m * 2 ^ e)%Z
        else if (Z.pos m mod 2 ^ (- e) =? 0)%Z then Some (Z.pos m / 2 ^ (- e))%Z
        else None in
      match magnitude with
      | Some v => Some (if s then (- v)%Z else v)
      | None => None
      end
  | _ => None
  end.

(** [2 ** k] for an integer [k]: the power of two itself where it is a
    double, Infinity above and 0 below.  Stands for the engine's [**] in
    the examples. *)
Definition powerOfTwo (base exponent : float) : float :=
  if PrimFloat.Leibniz.eqb base 2 then
    match integerOfDouble exponent with
    | Some k => Z.ldexp 1 k
    | None => nan
    end
  else nan.

(** A stand-in for a function of [Math] that an example does not reach. *)
Definition unusedMath (x : float) : float := x.

(** The abscissa [lonLatToWebMercator] gives the edge of [tile2lon] at
    column [x], with [p] for [2 ** z]. *)
Definition edgeX (p x : float) : float :=
  (x / p * 360 - 180) * Double.ORIGIN_SHIFT / 180.

(** One step of the walk along the columns of a zoom level: the tile at
    column [c] has its west edge strictly left of its east edge. *)
Definition widthStep (p : float) (st : bool * Z) : bool * Z :=
  let '(ok, c) := st in
  (ok && (edgeX p (doubleOfZ c) <? edgeX p (doubleOfZ c + 1)), (c + 1)%Z).

(** Every tile of the zoom level has a positive width, and the outermost
    edges are -20037508.342789244 and 20037508.342789244. *)
Definition columnsSeparate (zoom : Z) : bool :=
  let p := doubleOfZ (2 ^ zoom) in
  fst (Pos.iter (widthStep p) (true, 0%Z) (Z.to_pos (2 ^ zoom)))
  && PrimFloat.Leibniz.eqb (edgeX p 0) (-20037508.342789244)
  && PrimFloat.Leibniz.eqb (edgeX p (doubleOfZ (2 ^ zoom - 1) + 1)) 20037508.342789244.

Fixpoint zoomsUpTo (n : nat) : bool :=
  match n with
  | O => columnsSeparate 0
  | S k => columnsSeparate (Z.of_nat (S k)) && zoomsUpTo k
  end.

Local Close Scope float_scope.

(** ** JavaScript values and effects seen by the handler *)

Local Open Scope string_scope.

(** A JavaScript number: a finite double, read as the real it denotes, or
    one of the three non-finite doubles. *)
Inductive JsNumber : Type :=
| Finite (r : R)
| NaN
| PosInfinity
| NegInfinity.

(** [Number.isFinite] *)
Definition Number_isFinite (n : JsNumber) : bool :=
  match n with Finite _ => true | _ => false end.

(** The route parameters.  A segment that the router did not bind is
    [undefined], here [None]. *)
Record Params : Type := mkParams {
  p_z : option string;
  p_x : option string;
  p_y : option string
}.

(** The second argument of the handler; [context] itself and its [params]
    may be nullish ([context?.params ?? {}]). *)
Record Context : Type := mkContext { params : option Params }.

Definition noParams : Params := {| p_z := None; p_x := None; p_y := None |}.

Definition paramsOf (context : option Context) : Params :=
  match context with
  | Some c => match params c with Some ps => ps | None => noParams end
  | None => noParams
  end.

(** What a JavaScript exception carries is of no interest here. *)
Definition JsError : Type := string.

Inductive Completion (A : Type) : Type :=
| Normal (a : A)
| Throw (e : JsError).
Arguments Normal {A} a.
Arguments Throw {A} e.

(** The arguments of one call of [fetch]. *)
Record FetchCall : Type := mkFetchCall {
  fc_url : string;
  fc_headers : list (string * string);
  fc_cache : string
}.

(** The upstream [Response] as far as the handler looks at it: the
    [status], the [body] ([null] is [None]) and what [text()] settles to.
    [ok] is the getter of the Fetch standard: true for 200..299. *)
Record UpstreamResponse : Type := mkUpstream {
  up_status : Z;
  up_body : option (list Byte.byte);
  up_text : Completion string
}.

Definition up_ok (u : UpstreamResponse) : bool :=
  ((200 <=? up_status u) && (up_status u <=? 299))%Z.

(** The responses the handler builds.  [new Response(body, init)] takes
    the upstream's [body] as it is, [null] included. *)
Record ErrorJson : Type := mkErrorJson { error : string }.

Inductive ResponseBody : Type :=
| JsonBody (j : ErrorJson)
| StreamBody (stream : option (list Byte.byte)).

Record Response : Type := mkResponse {
  r_status : Z;
  r_headers : list (string * string);
  r_body : ResponseBody
}.

(** The handler is an [async] function: it runs to a completion and, on
    the way, calls [fetch].  The calls are logged in the order they are
    made. *)
Definition Js (A : Type) : Type :=
  list FetchCall -> Completion A * list FetchCall.

Definition ret {A : Type} (a : A) : Js A := fun log => (Normal a, log).

Definition bind {A B : Type} (m : Js A) (k : A -> Js B) : Js B :=
  fun log =>
    match m log with
    | (Normal a, log') => k a log'
    | (Throw e, log') => (Throw e, log')
    end.

(** [promise.catch(handler)] *)
Definition catch {A : Type} (m : Js A) (h : JsError -> Js A) : Js A :=
  fun log =>
    match m log with
    | (Normal a, log') => (Normal a, log')
    | (Throw e, log') => h e log'
    end.

Notation "x <- m ;; k" := (bind m (fun x => k))
  (at level 61, m at next level, right associativity).

(** [throw e] *)
Definition throw {A : Type} (e : JsError) : Js A := fun log => (Throw e, log).

(** The null body statuses of the Fetch standard. *)
Definition isNullBodyStatus (status : Z) : bool :=
  existsb (Z.eqb status) [101; 103; 204; 205; 304]%Z.

(** What the platform's [Response] throws for [init.status] when it is
    given a body: a RangeError for a status outside 200..599, a TypeError
    for a null body status. *)
Definition initError (status : Z) : option JsError :=
  if negb ((200 <=? status) && (status <=? 599))%Z then Some "RangeError"
  else if isNullBodyStatus status then Some "TypeError"
  else None.

(** [NextResponse.json(obj, { status })]: [Response.json] of the
    platform, which serialises [obj] as the body and initialises the
    response with [status]. *)
Definition NextResponse_json (obj : ErrorJson) (status : Z) : Js Response :=
  match initError status with
  | Some e => throw e
  | None =>
      ret {| r_status := status;
             r_headers := [("content-type", "application/json")];
             r_body := JsonBody obj |}
  end.

(** ** Strings *)

(** A decimal integer as a template literal prints it. *)
Definition intToString (z : Z) : string :=
  NilZero.string_of_int (Z.to_int z).

(** [Array.prototype.join] *)
Definition join (sep : string) (l : list string) : string :=
  String.concat sep l.

Definition isUnreserved (c : ascii) : bool :=
  let n := nat_of_ascii c in
  ((65 <=? n) && (n <=? 90)          (* A-Z *)
   || (97 <=? n) && (n <=? 122)      (* a-z *)
   || (48 <=? n) && (n <=? 57)       (* 0-9 *)
   || existsb (Nat.eqb n) [45; 95; 46; 33; 126; 42; 39; 40; 41])%nat.
                                      (* - _ . ! ~ * ' ( ) *)

Definition hexDigit (n : nat) : ascii :=
  ascii_of_nat (if (n <? 10)%nat then 48 + n else 55 + n).

(** One byte of the UTF-8 form as [%XX]. *)
Definition percentByte (c : ascii) : string :=
  let n := nat_of_ascii c in
  String "%"%char (String (hexDigit (n / 16)) (String (hexDigit (n mod 16)) "")).

(** [encodeURIComponent], on a string held as its UTF-8 bytes. *)
Fixpoint encodeURIComponent (s : string) : string :=
  match s with
  | EmptyString => EmptyString
  | String c rest =>
      if isUnreserved c then String c (encodeURIComponent rest)
      else percentByte c ++ encodeURIComponent rest
  end.

(** ** The handler *)

Definition DEFAULT_SERVICE_URL : string :=
  "https://maps.disasters.nasa.gov/ags03/rest/services/texas_flood_202507/uavsar/MapServer".

Section Handler.

(** The platform: what [Number] makes of a route segment, how a double
    prints ([Number::toString], used by [join]), the environment
    variable, and what the network answers to a call of [fetch]. *)
Variable Number : string -> JsNumber.
Variable numberToString : R -> string.
Variable env_UAVSAR_SERVICE_URL : option string.
Variable network : FetchCall -> Completion UpstreamResponse.

(** [process.env.UAVSAR_SERVICE_URL ?? "https://..."] *)
Definition UAVSAR_SERVICE_URL : string :=
  match env_UAVSAR_SERVICE_URL with
  | Some u => u
  | None => DEFAULT_SERVICE_URL
  end.

(** [await fetch(url, init)] *)
Definition fetch (call : FetchCall) : Js UpstreamResponse :=
  fun log => (network call, (log ++ [call])%list).

(** [upstream.text()] *)
Definition text (u : UpstreamResponse) : Js string :=
  fun log => (up_text u, log).

(** [[minX, minY, maxX, maxY].join(",")] *)
Definition bboxString (b : BBox) : string :=
  join "," (map numberToString [minX b; minY b; maxX b; maxY b]).

(** Lines 53-59. *)
Definition exportUrl (b : BBox) : string :=
  (UAVSAR_SERVICE_URL ++ "/export") ++
  ("?bbox=" ++ encodeURIComponent (bboxString b)) ++
  "&bboxSR=102100&imageSR=102100" ++
  ("&size=" ++ intToString TILE_SIZE ++ "," ++ intToString TILE_SIZE) ++
  "&format=png32&transparent=true&f=image".

(** Lines 61-66. *)
Definition exportCall (b : BBox) : FetchCall :=
  {| fc_url := exportUrl b;
     fc_headers := [("Accept", "image/png")];
     fc_cache := "no-store" |}.

(** Lines 68-74: [!upstream.ok || !upstream.body]. *)
Definition upstreamFailed (u : UpstreamResponse) : bool :=
  negb (up_ok u) || match up_body u with None => true | Some _ => false end.

(** [message || `Upstream error ${upstream.status}`] *)
Definition errorMessage (message : string) (u : UpstreamResponse) : string :=
  match message with
  | EmptyString => "Upstream error " ++ intToString (up_status u)
  | _ => message
  end.

(** [upstream.status || 502] *)
Definition errorStatus (u : UpstreamResponse) : Z :=
  if (up_status u =? 0)%Z then 502%Z else up_status u.

(** Lines 61-82, once the three numbers are known to be finite.  In the
    last branch [new Response(upstream.body, ...)] is given a status in
    200..299 and a body that is not [null]; a response of [fetch] with a
    null body status has no body, so the constructor accepts it. *)
Definition proxy (zoom tileX tileY : R) : Js Response :=
  let b := tileBBox zoom tileX tileY in
  upstream <- fetch (exportCall b) ;;
  if upstreamFailed upstream then
    message <- catch (text upstream) (fun _ => ret "") ;;
    NextResponse_json {| error := errorMessage message upstream |}
                      (errorStatus upstream)
  else
    ret {| r_status := up_status upstream;
           r_headers := [("Content-Type", "image/png");
                         ("Cache-Control", "public, max-age=600")];
           r_body := StreamBody (up_body upstream) |}.

(** [export async function GET(_req, context)].  The outer match is the
    test [z === undefined || x === undefined || y === undefined]; the
    inner one is [!Number.isFinite(zoom) || !Number.isFinite(tileX) ||
    !Number.isFinite(tileY)], and hands the three finite values on as
    reals. *)
Definition GET (context : option Context) : Js Response :=
  let ps := paramsOf context in
  match p_z ps, p_x ps, p_y ps with
  | Some z, Some x, Some y =>
      match Number z, Number x, Number y with
      | Finite zoom, Finite tileX, Finite tileY => proxy zoom tileX tileY
      | _, _, _ =>
          NextResponse_json {| error := "Invalid tile coordinates" |} 400%Z
      end
  | _, _, _ =>
      NextResponse_json {| error := "Missing tile coordinates" |} 400%Z
  end.

(** The request has the three segments and each converts to a finite
    number. *)
Definition accepted (context : option Context) (zoom column row : R) : Prop :=
  exists z x y,
    paramsOf context = {| p_z := Some z; p_x := Some x; p_y := Some y |} /\
    Number z = Finite zoom /\ Number x = Finite column /\ Number y = Finite row.

(** One request served from an empty log. *)
Definition serve (context : option Context) : Completion Response * list FetchCall :=
  GET context [].

End Handler.

(** ** How the upstream reads the query of the export URL *)

Definition hexValue (c : ascii) : option nat :=
  let n := nat_of_ascii c in
  if ((48 <=? n) && (n <=? 57))%nat then Some (n - 48)%nat
  else if ((65 <=? n) && (n <=? 70))%nat then Some (n - 55)%nat
  else if ((97 <=? n) && (n <=? 102))%nat then Some (n - 87)%nat
  else None.

(** Percent-decoding of a query value, byte by byte. *)
Fixpoint percentDecode (s : string) : string :=
  match s with
  | EmptyString => EmptyString
  | String c rest =>
      match rest with
      | String h (String l rest') =>
          if Ascii.eqb c "%"%char then
            match hexValue h, hexValue l with
            | Some a, Some b => String (ascii_of_nat (16 * a + b)) (percentDecode rest')
            | _, _ => String c (percentDecode rest)
            end
          else String c (percentDecode rest)
      | _ => String c (percentDecode rest)
      end
  end.

(** ** Auxiliary definitions for the proofs *)

(** The expression under [Math.atan] in [tile2lat], as a function of [n]. *)
Definition sinhJs (n : R) : R := 0.5 * (exp n - exp (- n)).

(** The general term of the exponential series. *)
Definition expTerm (x : R) (i : nat) : R := x ^ i / INR (fact i).

(** A character that [encodeURIComponent] may put out. *)
Definition isEncoded (c : ascii) : bool :=
  isUnreserved c || Ascii.eqb c "%"%char.

Fixpoint allChars (p : ascii -> bool) (s : string) : bool :=
  match s with
  | EmptyString => true
  | String c rest => p c && allChars p rest
  end.

(** A platform for the examples.  [decimalNumber] agrees with JavaScript's
    [Number] on a string of up to fifteen decimal digits (the empty string
    is 0); every string that is not made of digits is mapped to [NaN],
    which is coarser than JavaScript. *)
Fixpoint decimalDigits (acc : Z) (s : string) : option Z :=
  match s with
  | EmptyString => Some acc
  | String c rest =>
      let n := nat_of_ascii c in
      if ((48 <=? n) && (n <=? 57))%nat
      then decimalDigits (10 * acc + Z.of_nat (n - 48))%Z rest
      else None
  end.

Definition decimalNumber (s : string) : JsNumber :=
  match decimalDigits 0%Z s with
  | Some z => Finite (IZR z)
  | None => NaN
  end.

(** A printer that does not look at its argument. *)
Definition constPrinter (_ : R) : string := "0"%string.

(** An upstream that answers every call with the same response. *)
Definition constNetwork (u : UpstreamResponse) (_ : FetchCall)
  : Completion UpstreamResponse := Normal u.

(** A network on which every call fails. *)
Definition downNetwork (_ : FetchCall) : Completion UpstreamResponse :=
  Throw "fetch failed"%string.

(** The first bytes of a PNG file. *)
Definition pngBytes : list Byte.byte :=
  [Byte.x89; Byte.x50; Byte.x4e; Byte.x47; Byte.x0d; Byte.x0a; Byte.x1a; Byte.x0a].

Definition pngResponse : UpstreamResponse :=
  {| up_status := 200; up_body := Some pngBytes; up_text := Normal "PNG"%string |}.

Definition notFoundResponse : UpstreamResponse :=
  {| up_status := 404;
     up_body := Some (list_byte_of_string "tile not found");
     up_text := Normal "tile not found"%string |}.

(** 204 No Content: a response without a body. *)
Definition noContentResponse : UpstreamResponse :=
  {| up_status := 204; up_body := None; up_text := Normal ""%string |}.

Definition missing_y : option Context :=
  Some {| params := Some {| p_z := Some "10"%string;
                            p_x := Some "100"%string;
                            p_y := None |} |}.

Definition invalid_x : option Context :=
  Some {| params := Some {| p_z := Some "10"%string;
                            p_x := Some "abc"%string;
                            p_y := Some "200"%string |} |}.

Definition tile_10_100_200 : option Context :=
  Some {| params := Some {| p_z := Some "10"%string;
                            p_x := Some "100"%string;
                            p_y := Some "200"%string |} |}.

(** * The map component: distances, route options, the PDF export *)

(** The functions below are the pure helpers of the map component.  The
    numbers of the routing code are read as reals, like those of the tile
    endpoint; a number that is [NaN] or infinite is outside the model. *)

Local Close Scope string_scope.

(** ** Great-circle distance and the options of a route *)

Definition Math_atan2 (y x : R) : R :=
  if Rlt_dec 0 x then atan (y / x)
  else if Rlt_dec x 0 then
    (if Rle_dec 0 y then atan (y / x) + PI else atan (y / x) - PI)
  else if Rlt_dec 0 y then PI / 2
  else if Rlt_dec y 0 then - (PI / 2)
  else 0.

Definition toRad (d : R) : R := (d * PI) / 180.

Definition haversine_a (p1 p2 : R * R) : R :=
  let '(lat1, lon1) := p1 in
  let '(lat2, lon2) := p2 in
  let phi1 := toRad lat1 in
  let phi2 := toRad lat2 in
  let dphi := toRad (lat2 - lat1) in
  let dlam := toRad (lon2 - lon1) in
  sin (dphi / 2) ^ 2 + cos phi1 * cos phi2 * sin (dlam / 2) ^ 2.

Definition haversine (p1 p2 : R * R) : R :=
  let a := haversine_a p1 p2 in
  6371000 * 2 * Math_atan2 (sqrt a) (sqrt (1 - a)).

Record Shelter : Type := mkShelter {
  sh_id : string;
  sh_name : string;
  sh_address : string;
  sh_status : string;
  sh_note : string;
  sh_phone : string;
  sh_coords : R * R;
  sh_source : string
}.

Inductive Geometry : Type :=
| LineString (coordinates : list (R * R))
| MultiLineString (lines : list (list (R * R))).

Inductive RouteMode : Type := fast | safe.

Record RouteOption : Type := mkRouteOption {
  shelter : Shelter;
  crowDistance : R;
  osrmDistance : option R;
  durationSec : option R;
  geometry : option Geometry;
  mode : RouteMode
}.

(** The callback of [options.reduce] in [assignRouteModes]. *)
Definition betterIndex (arr : list RouteOption) (currentBest : nat)
    (opt : RouteOption) (index : nat) : option nat :=
  match nth_error arr currentBest with
  | None => None
  | Some best =>
      Some match durationSec opt, durationSec best with
           | Some d, None => index
           | Some d, Some bd => if Rlt_dec d bd then index else currentBest
           | None, None =>
               if Rlt_dec (crowDistance opt) (crowDistance best)
               then index else currentBest
           | None, Some _ => currentBest
           end
  end.

Fixpoint reduceFrom (arr rest : list RouteOption) (index currentBest : nat)
  : option nat :=
  match rest with
  | [] => Some currentBest
  | opt :: rest' =>
      match betterIndex arr currentBest opt index with
      | None => None
      | Some next => reduceFrom arr rest' (S index) next
      end
  end.

Definition bestIndex (options : list RouteOption) : option nat :=
  reduceFrom options options 0 0.

Definition withMode (m : RouteMode) (o : RouteOption) : RouteOption :=
  {| shelter := shelter o; crowDistance := crowDistance o;
     osrmDistance := osrmDistance o; durationSec := durationSec o;
     geometry := geometry o; mode := m |}.

Fixpoint mapFrom {A B : Type} (f : A -> nat -> B) (l : list A) (index : nat) : list B :=
  match l with
  | [] => []
  | a :: l' => f a index :: mapFrom f l' (S index)
  end.

Definition assignRouteModes (options : list RouteOption) : option (list RouteOption) :=
  match options with
  | [] => Some options
  | _ =>
      match bestIndex options with
      | None => None
      | Some best =>
          Some (mapFrom (fun opt index =>
                           withMode (if Nat.eqb index best then fast else safe) opt)
                        options 0)
      end
  end.

Record Candidate : Type := mkCandidate {
  cand_shelter : Shelter;
  cand_crow : R
}.

(** [Array.prototype.sort(compareFn)] for a consistent [compareFn]: the
    stable arrangement, here built by insertion.  An element goes behind
    every element that does not compare greater than it. *)
Fixpoint insertSorted {A : Type} (compareFn : A -> A -> R) (x : A) (sorted : list A)
  : list A :=
  match sorted with
  | [] => [x]
  | y :: rest =>
      if Rlt_dec 0 (compareFn y x) then x :: y :: rest
      else y :: insertSorted compareFn x rest
  end.

Definition Array_sort {A : Type} (compareFn : A -> A -> R) (l : list A) : list A :=
  fold_left (fun sorted x => insertSorted compareFn x sorted) l [].

(** [(a, b) => a.crowDistance - b.crowDistance] *)
Definition byCrowDistance (a b : Candidate) : R := cand_crow a - cand_crow b.

(** The candidates of [routeFrom]: the three shelters nearest to the
    start, as the crow flies. *)
Definition nearestThree (start : R * R) (shelters : list Shelter) : list Candidate :=
  firstn 3
    (Array_sort byCrowDistance
       (map (fun s => {| cand_shelter := s;
                         cand_crow := haversine start (sh_coords s) |})
            shelters)).

(** What [requestRoute] resolves to when it is not [null]. *)
Record RouteResult : Type := mkRouteResult {
  rr_geometry : Geometry;
  rr_distance : option R;
  rr_duration : option R
}.

(** [{ ...option, mode: "safe" }] *)
Definition baseOption (c : Candidate) : RouteOption :=
  {| shelter := cand_shelter c; crowDistance := cand_crow c;
     osrmDistance := None; durationSec := None; geometry := None; mode := safe |}.

(** One turn of the loop of [routeFrom], by what [requestRoute] gave. *)
Definition enrichOption (c : Candidate) (route : option RouteResult) : RouteOption :=
  match route with
  | Some r =>
      {| shelter := cand_shelter c; crowDistance := cand_crow c;
         osrmDistance := rr_distance r; durationSec := rr_duration r;
         geometry := Some (rr_geometry r); mode := safe |}
  | None => baseOption c
  end.

(** The loop: the [index]-th call of [requestRoute] resolves to
    [routes index]. *)
Definition enrichAll (sorted : list Candidate) (routes : nat -> option RouteResult)
  : list RouteOption :=
  mapFrom (fun c index => enrichOption c (routes index)) sorted 0.

Definition hasGeometry (o : RouteOption) : bool :=
  match geometry o with Some _ => true | None => false end.

Definition isFast (o : RouteOption) : bool :=
  match mode o with fast => true | safe => false end.

(** [withModes.find(o => o.mode === "fast" && o.geometry) ??
     withModes.find(o => o.geometry)] *)
Definition initialRoute (withModes : list RouteOption) : option RouteOption :=
  match find (fun o => isFast o && hasGeometry o) withModes with
  | Some o => Some o
  | None => find hasGeometry withModes
  end.

(** The options that [routeFrom] stores and the route it draws first. *)
Definition routeFrom_options (start : R * R) (shelters : list Shelter)
    (routes : nat -> option RouteResult) : option (list RouteOption) :=
  assignRouteModes (enrichAll (nearestThree start shelters) routes).

Local Open Scope string_scope.

(** Two shelters of the table, and two options for the examples. *)
Definition shelter_fumc : Shelter :=
  {| sh_id := "shelter_fumc"; sh_name := "First United Methodist Church";
     sh_address := "321 Thompson Dr, Kerrville, TX 78028"; sh_status := "standby";
     sh_note := "Capacity varies"; sh_phone := "(830) 257-0809";
     sh_coords := (30.0416, -99.1449);
     sh_source := "TDHCA flood resources (Kerr County)" |}.

Definition shelter_calvary : Shelter :=
  {| sh_id := "shelter_calvary"; sh_name := "Calvary Temple Church";
     sh_address := "3000 Loop 534, Kerrville, TX 78028"; sh_status := "standby";
     sh_note := "Large sanctuary / gym spaces"; sh_phone := "(830) 895-3000";
     sh_coords := (30.0339, -99.1024);
     sh_source := "TDHCA flood resources (Kerr County)" |}.

Definition exampleOptions : list RouteOption :=
  [ {| shelter := shelter_fumc; crowDistance := 650; osrmDistance := Some 900;
       durationSec := Some 140; geometry := Some (LineString []); mode := safe |};
    {| shelter := shelter_calvary; crowDistance := 4200; osrmDistance := None;
       durationSec := None; geometry := None; mode := safe |} ].

Local Close Scope R_scope.

(** ** The PDF export *)

(** The text handed to the export is a JavaScript string, a list of
    UTF-16 code units.  [sanitizePdfLine] leaves printable ASCII only, and
    from there on a string is held as its bytes. *)

(** [/[^\x20-\x7E]/]: a code unit outside the printable ASCII range. *)
Definition isPrintableUnit (u : N) : bool := ((32 <=? u) && (u <=? 126))%N.

(** [line.replace(/[^\x20-\x7E]/g, " ")], from the UTF-16 code units of
    [line]; the result is ASCII and is held as a byte string. *)
Fixpoint replaceNonPrintable (line : list N) : string :=
  match line with
  | [] => EmptyString
  | u :: rest =>
      String (if isPrintableUnit u then ascii_of_N u else " "%char)
             (replaceNonPrintable rest)
  end.

(** [\s] on the code units below 256: tab, line feed, vertical tab, form
    feed, carriage return, space, no-break space. *)
Definition isJsSpace (c : ascii) : bool :=
  existsb (Nat.eqb (nat_of_ascii c)) [9; 10; 11; 12; 13; 32; 160]%nat.

(** [s.replace(/\s+$/g, "")] *)
Fixpoint trimEnd (s : string) : string :=
  match s with
  | EmptyString => EmptyString
  | String c rest =>
      match trimEnd rest with
      | EmptyString => if isJsSpace c then EmptyString else String c EmptyString
      | trimmed => String c trimmed
      end
  end.

(** [function sanitizePdfLine(line)] *)
Definition sanitizePdfLine (line : list N) : string :=
  let ascii := replaceNonPrintable line in
  let trimmed := trimEnd ascii in
  if (0 <? String.length trimmed)%nat then trimmed else " ".

(** [s.replace(/c/g, replacement)] for a single character [c]. *)
Fixpoint replaceAll (c : ascii) (replacement : string) (s : string) : string :=
  match s with
  | EmptyString => EmptyString
  | String a rest =>
      (if Ascii.eqb a c then replacement else String a EmptyString)
        ++ replaceAll c replacement rest
  end.

(** [function escapePdfText(line)] *)
Definition escapePdfText (line : string) : string :=
  replaceAll ")" "\)" (replaceAll "(" "\(" (replaceAll "\" "\\" line)).

(** The line feed of the template literals. *)
Definition LF : string := String (ascii_of_nat 10) EmptyString.

(** [new TextEncoder().encode(s).length] for a string of code units below
    256: one byte below 128, two from there on. *)
Fixpoint utf8Length (s : string) : nat :=
  match s with
  | EmptyString => 0
  | String c rest => (if (nat_of_ascii c <? 128)%nat then 1 else 2) + utf8Length rest
  end.

(** [s.padStart(targetLength, fill)] for a one-character [fill]. *)
Definition padStart (targetLength : nat) (fill : ascii) (s : string) : string :=
  string_of_list_ascii (repeat fill (targetLength - String.length s)) ++ s.

(** One line of text of the content stream. *)
Definition textSection (line : string) (index : nat) : string :=
  let y := (760 - Z.of_nat index * 18)%Z in
  "1 0 0 1 72 " ++ intToString y ++ " Tm" ++ LF ++ "(" ++ escapePdfText line ++ ") Tj".

(** [(lines.length ? lines : [" "]).map((line) => sanitizePdfLine(line))] *)
Definition pdfCleaned (lines : list (list N)) : list string :=
  map sanitizePdfLine (match lines with [] => [[32%N]] | _ => lines end).

Definition pdfContentStream (lines : list (list N)) : string :=
  "BT" ++ LF ++ "/F1 12 Tf" ++ LF
    ++ join LF (mapFrom textSection (pdfCleaned lines) 0) ++ LF ++ "ET".

Definition pdfObjects (lines : list (list N)) : list string :=
  let contentStream := pdfContentStream lines in
  let contentLength := utf8Length contentStream in
  [ "1 0 obj" ++ LF ++ "<< /Type /Catalog /Pages 2 0 R >>" ++ LF ++ "endobj";
    "2 0 obj" ++ LF ++ "<< /Type /Pages /Kids [3 0 R] /Count 1 >>" ++ LF ++ "endobj";
    "3 0 obj" ++ LF ++ "<< /Type /Page /Parent 2 0 R /MediaBox [0 0 612 792] /Contents 4 0 R /Resources << /Font << /F1 5 0 R >> >> >>" ++ LF ++ "endobj";
    "4 0 obj" ++ LF ++ "<< /Length " ++ intToString (Z.of_nat contentLength) ++ " >>" ++ LF
      ++ "stream" ++ LF ++ contentStream ++ LF ++ "endstream" ++ LF ++ "endobj";
    "5 0 obj" ++ LF ++ "<< /Type /Font /Subtype /Type1 /BaseFont /Helvetica >>" ++ LF ++ "endobj" ].

(** The body of the loop over [objects]: the parts written so far, their
    length in bytes, and the offsets noted. *)
Definition pushObject (state : list string * nat * list nat) (obj : string)
  : list string * nat * list nat :=
  let '(parts, currentLength, offsets) := state in
  let chunk := obj ++ LF in
  ((parts ++ [chunk])%list, (currentLength + utf8Length chunk)%nat,
   (offsets ++ [currentLength])%list).

Definition xrefEntry (offset : nat) : string :=
  padStart 10 "0" (intToString (Z.of_nat offset)) ++ " 00000 n " ++ LF.

Definition pdfXref (count : nat) (offsets : list nat) : string :=
  fold_left (fun xref offset => xref ++ xrefEntry offset) offsets
    (("xref" ++ LF ++ "0 " ++ intToString (Z.of_nat (count + 1)) ++ LF)
       ++ "0000000000 65535 f " ++ LF).

Definition pdfTrailer (count xrefOffset : nat) : string :=
  "trailer" ++ LF ++ "<< /Size " ++ intToString (Z.of_nat (count + 1)) ++ " /Root 1 0 R >>" ++ LF
    ++ "startxref" ++ LF ++ intToString (Z.of_nat xrefOffset) ++ LF ++ "%%EOF".

Definition pdfHeader : string := "%PDF-1.3" ++ LF.

(** [function buildPdfDocument(lines)] *)
Definition buildPdfDocument (lines : list (list N)) : string :=
  let objects := pdfObjects lines in
  let '(parts, currentLength, offsets) :=
    fold_left pushObject objects ([pdfHeader], utf8Length pdfHeader, []) in
  let xrefOffset := currentLength in
  let xref := pdfXref (List.length objects) offsets in
  let trailer := pdfTrailer (List.length objects) xrefOffset in
  join "" (parts ++ [xref; trailer]).

(** ** The cache of routes (third version of the map component) *)

(** The geometry of a route as the router's JSON has it: the type is
    whatever string the JSON holds. *)
Record JsonGeometry : Type := mkJsonGeometry {
  gj_type : string;
  gj_coordinates : list (list (R * R))
}.

(** [OsrmRoute]; a field that is absent, or a distance or duration that
    is not a number, is [None]. *)
Record OsrmRoute : Type := mkOsrmRoute {
  or_geometry : option JsonGeometry;
  or_distance : option R;
  or_duration : option R
}.

(** [OsrmResponse] *)
Record OsrmResponse : Type := mkOsrmResponse {
  osrm_code : option string;
  osrm_routes : option (list OsrmRoute)
}.

(** The [Response] of the router as far as [requestRoute] looks at it:
    [response.ok] and what [await response.json()] completes with. *)
Record OsrmHttpResponse : Type := mkOsrmHttpResponse {
  http_ok : bool;
  http_json : Completion OsrmResponse
}.

(** [RouteCacheEntry] *)
Record RouteCacheEntry : Type := mkRouteCacheEntry {
  ce_geometry : JsonGeometry;
  ce_distance : option R;
  ce_duration : option R
}.

(** [routeCache.current], a [Map] from keys to entries, in insertion
    order. *)
Definition RouteCache : Type := list (string * RouteCacheEntry).

(** [Map.prototype.get] *)
Fixpoint mapGet (key : string) (m : RouteCache) : option RouteCacheEntry :=
  match m with
  | [] => None
  | (k, v) :: rest => if String.eqb k key then Some v else mapGet key rest
  end.

(** [Map.prototype.set] *)
Fixpoint mapSet (key : string) (value : RouteCacheEntry) (m : RouteCache)
  : RouteCache :=
  match m with
  | [] => [(key, value)]
  | (k, v) :: rest =>
      if String.eqb k key then (k, value) :: rest
      else (k, v) :: mapSet key value rest
  end.

Definition ROUTE_KEY_PRECISION : nat := 5%nat.

(** The negation of
    [geometry.type !== "LineString" && geometry.type !== "MultiLineString"]. *)
Definition isLineGeometry (g : JsonGeometry) : bool :=
  String.eqb (gj_type g) "LineString" || String.eqb (gj_type g) "MultiLineString".

(** What [requestRoute] makes of the JSON of the router, from the test of
    [json.code] to the entry it builds; [None] is [null]. *)
Definition routeOfJson (json : OsrmResponse) : option RouteCacheEntry :=
  let refused :=
    match osrm_code json with
    | Some code => negb (String.eqb code "") && negb (String.eqb code "Ok")
    | None => false
    end in
  if refused then None
  else
    let firstRoute :=
      match osrm_routes json with
      | Some routes => hd_error routes
      | None => None
      end in
    let geometry :=
      match firstRoute with
      | Some route => or_geometry route
      | None => None
      end in
    match geometry with
    | None => None
    | Some g =>
        if negb (isLineGeometry g) then None
        else
          Some {| ce_geometry := g;
                  ce_distance := match firstRoute with
                                 | Some route => or_distance route
                                 | None => None
                                 end;
                  ce_duration := match firstRoute with
                                 | Some route => or_duration route
                                 | None => None
                                 end |}
    end.

Section RouteRequests.

(** The platform: [Number.prototype.toFixed], how a number prints in a
    template literal, and what [await fetch(url)] completes with. *)
Variable toFixed : R -> nat -> string.
Variable printNumber : R -> string.
Variable router : string -> Completion OsrmHttpResponse.

(** [buildRouteCacheKey] *)
Definition buildRouteCacheKey (start destination : R * R) : string :=
  let precision := ROUTE_KEY_PRECISION in
  (toFixed (fst start) precision ++ "," ++ toFixed (snd start) precision ++ "->")
    ++ (toFixed (fst destination) precision ++ ","
          ++ toFixed (snd destination) precision).

(** The URL asked of the router: longitude before latitude. *)
Definition routeUrl (start destination : R * R) : string :=
  "https://router.project-osrm.org/route/v1/driving/"
    ++ (printNumber (snd start) ++ "," ++ printNumber (fst start) ++ ";"
          ++ printNumber (snd destination) ++ "," ++ printNumber (fst destination)
          ++ "?overview=full&geometries=geojson").

(** [requestRoute] with the cache, run from its call to its result with
    no other request in between: the result ([None] is [null]), the cache
    afterwards, and the URLs fetched.  The [catch] turns every exception of
    [fetch] and of [response.json()] into [null]. *)
Definition requestRoute (start destination : R * R) (cache : RouteCache)
  : option RouteCacheEntry * RouteCache * list string :=
  let cacheKey := buildRouteCacheKey start destination in
  match mapGet cacheKey cache with
  | Some cached => (Some cached, cache, [])
  | None =>
      let url := routeUrl start destination in
      match router url with
      | Throw _ => (None, cache, [url])
      | Normal response =>
          if negb (http_ok response) then (None, cache, [url])
          else
            match http_json response with
            | Throw _ => (None, cache, [url])
            | Normal json =>
                match routeOfJson json with
                | None => (None, cache, [url])
                | Some result =>
                    (Some result, mapSet cacheKey result cache, [url])
                end
            end
      end
  end.

(** The cache after a sequence of requests, one after the other. *)
Fixpoint requestRoutes (requests : list ((R * R) * (R * R))) (cache : RouteCache)
  : RouteCache :=
  match requests with
  | [] => cache
  | (start, destination) :: rest =>
      requestRoutes rest (snd (fst (requestRoute start destination cache)))
  end.

End RouteRequests.

Local Close Scope string_scope.
Local Open Scope Z_scope.

(** ** The busy indicator *)

(** The busy indicator of the map: [pendingOperations.current] and the
    value last given to [setBusy]. *)
Record BusyState : Type := mkBusyState {
  pendingOperations : Z;
  busy : bool
}.

(** [beginBusy] *)
Definition beginBusy (st : BusyState) : BusyState :=
  {| pendingOperations := pendingOperations st + 1; busy := true |}.

(** [endBusy] *)
Definition endBusy (st : BusyState) : BusyState :=
  let pending := Z.max 0 (pendingOperations st - 1) in
  {| pendingOperations := pending;
     busy := if pending =? 0 then false else busy st |}.

(** ** Auxiliary definitions for the proofs about the map component *)

Inductive BusyCall : Type := Begin | End_.

Definition busyStep (st : BusyState) (call : BusyCall) : BusyState :=
  match call with
  | Begin => beginBusy st
  | End_ => endBusy st
  end.

Definition busyInitial : BusyState := {| pendingOperations := 0; busy := false |}.

Definition busyRun (calls : list BusyCall) : BusyState :=
  fold_left busyStep calls busyInitial.

(** Calls of [beginBusy] that no [endBusy] has answered yet, counting an
    [endBusy] without a pending operation as nothing. *)
Fixpoint unanswered (calls : list BusyCall) (open : Z) : Z :=
  match calls with
  | [] => open
  | Begin :: rest => unanswered rest (open + 1)
  | End_ :: rest => unanswered rest (Z.max 0 (open - 1))
  end.

Definition busyConsistent (st : BusyState) : Prop :=
  0 <= pendingOperations st /\ busy st = (0 <? pendingOperations st).

Local Close Scope Z_scope.
Local Open Scope string_scope.

(** The code units of a byte string. *)
Fixpoint codeUnits (s : string) : list N :=
  match s with
  | EmptyString => []
  | String c rest => N_of_ascii c :: codeUnits rest
  end.

Definition isPrintableChar (c : ascii) : bool := isPrintableUnit (N_of_ascii c).

Fixpoint lastChar (s : string) : option ascii :=
  match s with
  | EmptyString => None
  | String c rest =>
      match rest with
      | EmptyString => Some c
      | _ => lastChar rest
      end
  end.

(** What a sanitized line looks like. *)
Definition isSanitized (s : string) : Prop :=
  s <> EmptyString /\
  allChars isPrintableChar s = true /\
  (s = " " \/ exists c, lastChar s = Some c /\ c <> " "%char).

(** What an escape stands for in a literal string. *)
Definition unescapeChar (e : ascii) : ascii :=
  if Ascii.eqb e "n" then ascii_of_nat 10
  else if Ascii.eqb e "r" then ascii_of_nat 13
  else if Ascii.eqb e "t" then ascii_of_nat 9
  else if Ascii.eqb e "b" then ascii_of_nat 8
  else if Ascii.eqb e "f" then ascii_of_nat 12
  else e.

Definition consFst (c : ascii) (r : option (string * string)) : option (string * string) :=
  match r with
  | Some (t, rest) => Some (String c t, rest)
  | None => None
  end.

(** A reader of the literal strings of a PDF content stream, started
    behind the opening parenthesis: the text up to the parenthesis that
    closes the string, and what follows it.  A backslash escapes the next
    character and parentheses that are not escaped nest.  Octal escapes and
    line continuations are not read. *)
Fixpoint readLiteral (depth : nat) (s : string) : option (string * string) :=
  match s with
  | EmptyString => None
  | String c rest =>
      if Ascii.eqb c "\" then
        match rest with
        | EmptyString => None
        | String e rest' => consFst (unescapeChar e) (readLiteral depth rest')
        end
      else if Ascii.eqb c "(" then consFst c (readLiteral (S depth) rest)
      else if Ascii.eqb c ")" then
        match depth with
        | O => Some (EmptyString, rest)
        | S d => consFst c (readLiteral d rest)
        end
      else consFst c (readLiteral depth rest)
  end.

(** The three passes of [escapePdfText] in one. *)
Definition escapeChar (a : ascii) : string :=
  if Ascii.eqb a "\" then "\\"
  else if Ascii.eqb a "(" then "\("
  else if Ascii.eqb a ")" then "\)"
  else String a EmptyString.

Definition isAsciiChar (c : ascii) : bool := (nat_of_ascii c <? 128)%nat.

Definition chunkOf (obj : string) : string := obj ++ LF.

Definition concatAll (l : list string) : string := fold_right append EmptyString l.

Fixpoint offsetsFrom (len : nat) (objs : list string) : list nat :=
  match objs with
  | [] => []
  | o :: rest => len :: offsetsFrom (len + utf8Length (chunkOf o)) rest
  end.

Fixpoint bytesOf (objs : list string) : nat :=
  match objs with
  | [] => 0
  | o :: rest => utf8Length (chunkOf o) + bytesOf rest
  end.

Definition allAscii (objs : list string) : Prop :=
  forall o, In o objs -> allChars isAsciiChar o = true.

(** Every entry of the cache holds a line geometry. *)
Definition cacheValid (cache : RouteCache) : Prop :=
  forall key e, mapGet key cache = Some e -> isLineGeometry (ce_geometry e) = true.

Definition fixedPrinter (_ : R) (_ : nat) : string := "29.76043".

Definition lineRouter (_ : string) : Completion OsrmHttpResponse :=
  Normal {| http_ok := true;
            http_json :=
              Normal {| osrm_code := Some "Ok";
                        osrm_routes :=
                          Some [ {| or_geometry :=
                                      Some {| gj_type := "LineString";
                                              gj_coordinates := [] |};
                                    or_distance := None;
                                    or_duration := None |} ] |} |}.

Local Close Scope string_scope.
Local Open Scope R_scope.

(** [o] is strictly preferred to [b]. *)
Definition beats (o b : RouteOption) : Prop :=
  match durationSec o, durationSec b with
  | Some d, None => True
  | Some d, Some bd => d < bd
  | None, None => crowDistance o < crowDistance b
  | None, Some _ => False
  end.

(** The state of the reduction after the options before [k]. *)
Definition leads (arr : list RouteOption) (k b : nat) : Prop :=
  exists best, nth_error arr b = Some best /\
    (forall j o, (j < k)%nat -> nth_error arr j = Some o -> ~ beats o best) /\
    (forall j o, (j < b)%nat -> nth_error arr j = Some o -> beats best o).

Definition sameKey (o o' : RouteOption) : Prop :=
  durationSec o = durationSec o' /\ crowDistance o = crowDistance o'.

Definition crowLe (a b : Candidate) : Prop := cand_crow a <= cand_crow b.

Local Open Scope string_scope.

(** * Properties *)

Local Open Scope R_scope.

Lemma clampedLat_spec (l : R) : clampedLat l = Spec.clamp l.
Proof.
  unfold clampedLat, Spec.clamp, Rmax, Rmin.
  repeat (destruct Rle_dec; try destruct Rlt_dec); lra.
Qed.

Lemma mercatorAngle_spec (l : R) :
  mercatorAngle l = PI / 4 + Spec.clamp l * PI / 360.
Proof. unfold mercatorAngle. rewrite clampedLat_spec. field. Qed.

Lemma pow2_pos (z : R) : 0 < Rpower 2 z.
Proof. unfold Rpower. apply exp_pos. Qed.

Lemma pow2_neq0 (z : R) : Rpower 2 z <> 0.
Proof. apply Rgt_not_eq, pow2_pos. Qed.

Lemma tileBBox_refines (zoom column row : R) :
  tileBBox zoom column row = Spec.computeProjectedBBox zoom column row.
Proof.
  unfold tileBBox, Spec.computeProjectedBBox, lonLatToWebMercator; simpl.
  f_equal.
  - unfold Spec.projX, Spec.lon, tile2lon, ORIGIN_SHIFT, EARTH_RADIUS, Spec.R_earth.
    field. apply pow2_neq0.
  - unfold Spec.projY. rewrite mercatorAngle_spec.
    unfold Spec.lat, tile2lat, tile_n, EARTH_RADIUS, Spec.R_earth.
    apply Rmult_comm.
  - unfold Spec.projX, Spec.lon, tile2lon, ORIGIN_SHIFT, EARTH_RADIUS, Spec.R_earth.
    field. apply pow2_neq0.
  - unfold Spec.projY. rewrite mercatorAngle_spec.
    unfold Spec.lat, tile2lat, tile_n, EARTH_RADIUS, Spec.R_earth.
    apply Rmult_comm.
Qed.

(** ** Numeric bounds *)

Lemma PI_bounds : 3.141592653 < PI < 3.141592654.
Proof.
  pose proof (PI_2_3_7_ineq 5) as [Hlo Hhi].
  unfold PI_2_3_7_tg, tg_alt, Ratan_seq in Hlo, Hhi.
  simpl in Hlo, Hhi. split; lra.
Qed.

Lemma exp_inv_prod (n : R) : exp n * exp (- n) = 1.
Proof. rewrite <- exp_plus, Rplus_opp_r. apply exp_0. Qed.

Lemma expTerm_decreasing (x : R) : 0 <= x <= 1 -> Un_decreasing (expTerm x).
Proof.
  intros Hx n. unfold expTerm.
  assert (Hf := INR_fact_lt_0 n).
  assert (Hp : 0 <= x ^ n) by (apply pow_le; lra).
  rewrite fact_simpl, mult_INR, S_INR. simpl pow.
  assert (Hn := pos_INR n).
  unfold Rdiv. rewrite Rinv_mult.
  assert (Hi : 0 < / INR (fact n)) by (apply Rinv_0_lt_compat; exact Hf).
  assert (Hs : 0 < / (INR n + 1) <= 1).
  { split.
    - apply Rinv_0_lt_compat; lra.
    - rewrite <- Rinv_1 at 2. apply Rinv_le_contravar; lra. }
  replace (x * x ^ n * (/ (INR n + 1) * / INR (fact n)))
    with ((x * / (INR n + 1)) * (x ^ n * / INR (fact n))) by ring.
  assert (Hq : 0 <= x ^ n * / INR (fact n)) by (apply Rmult_le_pos; lra).
  assert (Hr : x * / (INR n + 1) <= 1) by nra.
  nra.
Qed.

(** The alternating series of [exp (- x)]. *)
Lemma exp_neg_series (x : R) :
  Un_cv (fun n => sum_f_R0 (tg_alt (expTerm x)) n) (exp (- x)).
Proof.
  unfold exp. destruct (exist_exp (- x)) as [l Hl]. simpl.
  unfold exp_in, infinite_sum in Hl.
  intros eps Heps. destruct (Hl eps Heps) as [N HN].
  exists N. intros n Hn. specialize (HN n Hn).
  replace (sum_f_R0 (tg_alt (expTerm x)) n)
    with (sum_f_R0 (fun i => / INR (fact i) * (- x) ^ i) n); [exact HN|].
  apply sum_eq. intros i _. unfold tg_alt, expTerm.
  replace (- x) with (-1 * x) by ring. rewrite Rpow_mult_distr.
  unfold Rdiv. ring.
Qed.

Lemma exp_neg_bounds (x : R) (N : nat) :
  0 <= x <= 1 ->
  sum_f_R0 (tg_alt (expTerm x)) (S (2 * N)) <= exp (- x)
    <= sum_f_R0 (tg_alt (expTerm x)) (2 * N).
Proof.
  intros Hx. apply alternated_series_ineq.
  - apply expTerm_decreasing, Hx.
  - exact (cv_speed_pow_fact x).
  - apply exp_neg_series.
Qed.

Lemma INR_fact_val (k : nat) (z : Z) :
  Z.of_nat (fact k) = z -> INR (fact k) = IZR z.
Proof. intros <-. apply INR_IZR_INZ. Qed.

Lemma exp_neg_poly7 (x : R) :
  0 <= x <= 1 ->
  1 - x + x^2/2 - x^3/6 + x^4/24 - x^5/120 + x^6/720 - x^7/5040 <= exp (- x).
Proof.
  intros Hx. destruct (exp_neg_bounds x 3 Hx) as [Hlo _].
  change (S (2 * 3)) with 7%nat in Hlo.
  cbn [sum_f_R0] in Hlo. unfold tg_alt, expTerm in Hlo.
  rewrite (INR_fact_val 0 1), (INR_fact_val 1 1), (INR_fact_val 2 2),
    (INR_fact_val 3 6), (INR_fact_val 4 24), (INR_fact_val 5 120),
    (INR_fact_val 6 720), (INR_fact_val 7 5040) in Hlo by reflexivity.
  eapply Rle_trans; [|exact Hlo]. right. field.
Qed.

Lemma exp_neg_quarter_PI : 0.45593 < exp (- (PI / 4)).
Proof.
  pose proof PI_bounds as HPI.
  set (q := 0.7854).
  apply Rlt_le_trans with (exp (- q)).
  - assert (Hq : 0 <= q <= 1) by (unfold q; lra).
    pose proof (exp_neg_poly7 q Hq) as H. unfold q in *. lra.
  - destruct (Req_dec (- q) (- (PI / 4))) as [->|Hne]; [lra|].
    left. apply exp_increasing. unfold q in *. lra.
Qed.

Lemma exp_neg_PI_lower : 0.04321 < exp (- PI).
Proof.
  pose proof exp_neg_quarter_PI as H.
  replace (- PI) with (- (PI/4) + (- (PI/4) + (- (PI/4) + - (PI/4)))) by field.
  rewrite !exp_plus. set (b := exp (- (PI / 4))) in *.
  assert (H2 : 0.2078721 < b * b) by nra.
  replace (b * (b * (b * b))) with ((b * b) * (b * b)) by ring. nra.
Qed.

Lemma exp_PI_upper : exp PI < 23.1428.
Proof.
  pose proof exp_neg_PI_lower as Hlow.
  pose proof (exp_inv_prod PI) as Hinv.
  pose proof (exp_pos PI). nra.
Qed.

(** ** The hyperbolic sine under the arc tangent *)

Lemma sinhJs_le (n m : R) : n <= m -> sinhJs n <= sinhJs m.
Proof.
  intros [H | ->]; [|lra]. unfold sinhJs.
  assert (exp n < exp m) by (apply exp_increasing; exact H).
  assert (exp (- m) < exp (- n)) by (apply exp_increasing; lra).
  lra.
Qed.

Lemma sinhJs_opp (n : R) : sinhJs (- n) = - sinhJs n.
Proof. unfold sinhJs. rewrite Ropp_involutive. ring. Qed.

Lemma sinhJs_PI : sinhJs PI < 11.5498.
Proof.
  unfold sinhJs. pose proof exp_PI_upper. pose proof exp_neg_PI_lower. lra.
Qed.

Lemma cos_lower (a : R) : 0 < a -> 1 - a * a / 2 < cos a.
Proof.
  intros Ha. replace a with (2 * (a / 2)) at 3 by field.
  rewrite cos_2a_sin.
  assert (H := sin_lt_x (a / 2) ltac:(lra)).
  assert (Hm : - (a / 2) < sin (a / 2)).
  { destruct (Rle_lt_dec (a / 2) 1) as [Hle|Hgt].
    - assert (0 <= sin (a / 2)); [|lra].
      apply sin_ge_0; [lra|]. pose proof PI_bounds. lra.
    - pose proof (SIN_bound (a / 2)) as [Hb _]. lra. }
  nra.
Qed.

Lemma atan_lt_of_lt_tan (s b : R) :
  - (PI / 2) < b < PI / 2 -> s < tan b -> atan s < b.
Proof.
  intros Hb Hs. rewrite <- (atan_tan b Hb). apply atan_increasing. exact Hs.
Qed.

Lemma tan_8506 : 11.5498 < tan (85.06 * PI / 180).
Proof.
  pose proof PI_bounds as HPI.
  set (a := 4.94 * PI / 180).
  assert (Ha : 0 < a < 0.08623) by (unfold a; lra).
  replace (85.06 * PI / 180) with (PI / 2 - a) by (unfold a; lra).
  unfold tan. rewrite (sin_shift a), (cos_shift a).
  assert (Hs : sin a < a) by (apply sin_lt_x; lra).
  assert (Hs0 : 0 < sin a) by (apply sin_gt_0; lra).
  assert (Hc := cos_lower a ltac:(lra)).
  apply Rmult_lt_reg_r with (sin a); [exact Hs0|].
  replace (cos a / sin a * sin a) with (cos a) by (field; lra).
  assert (Hsq : a * a < 0.08623 * 0.08623) by nra.
  lra.
Qed.

Lemma atan_sinhJs_bound (n : R) :
  - PI <= n <= PI ->
  - (85.06 * PI / 180) < atan (sinhJs n) < 85.06 * PI / 180.
Proof.
  intros [Hlo Hhi]. pose proof PI_bounds as HPI.
  assert (Hb : - (PI / 2) < 85.06 * PI / 180 < PI / 2) by lra.
  pose proof sinhJs_PI. pose proof tan_8506.
  split.
  - assert (H1 : sinhJs (- PI) <= sinhJs n) by (apply sinhJs_le; lra).
    rewrite sinhJs_opp in H1.
    assert (H2 : atan (- sinhJs n) < 85.06 * PI / 180).
    { apply atan_lt_of_lt_tan; [exact Hb|lra]. }
    rewrite atan_opp in H2. lra.
  - assert (H1 := sinhJs_le n PI Hhi).
    apply atan_lt_of_lt_tan; [exact Hb|lra].
Qed.

(** [cos (atan (sinh n)) * cosh n = 1] *)
Lemma cos_atan_sinhJs (n : R) :
  cos (atan (sinhJs n)) * (0.5 * (exp n + exp (- n))) = 1.
Proof.
  set (phi := atan (sinhJs n)).
  assert (Hphi : - PI / 2 < phi < PI / 2) by apply atan_bound.
  assert (Hc : 0 < cos phi) by (apply cos_gt_0; lra).
  assert (Ht : sin phi = sinhJs n * cos phi).
  { pose proof (tan_atan (sinhJs n)) as H. fold phi in H. unfold tan in H.
    rewrite <- H. field. lra. }
  pose proof (sin2_cos2 phi) as Hsc. unfold Rsqr in Hsc. rewrite Ht in Hsc.
  pose proof (exp_inv_prod n) as He.
  pose proof (exp_pos n). pose proof (exp_pos (- n)).
  unfold sinhJs in *.
  set (E := exp n) in *. set (E' := exp (- n)) in *. set (c := cos phi) in *.
  assert (Hsq : (c * (0.5 * (E + E'))) * (c * (0.5 * (E + E'))) = 1) by nra.
  assert (Hpos : 0 < c * (0.5 * (E + E'))) by nra.
  nra.
Qed.

(** The inverse Gudermannian: the Mercator ordinate undoes [atan (sinh n)]. *)
Lemma tan_half_gudermann (n : R) :
  tan (PI / 4 + atan (sinhJs n) / 2) = exp n.
Proof.
  pose proof (cos_atan_sinhJs n) as Hcc.
  set (phi := atan (sinhJs n)) in *.
  assert (Hphi : - PI / 2 < phi < PI / 2) by apply atan_bound.
  assert (Hc : 0 < cos phi) by (apply cos_gt_0; lra).
  assert (Ht : sin phi = sinhJs n * cos phi).
  { pose proof (tan_atan (sinhJs n)) as H. fold phi in H. unfold tan in H.
    rewrite <- H. field. lra. }
  set (t := PI / 4 + phi / 2).
  assert (Hct : 0 < cos t) by (apply cos_gt_0; unfold t; lra).
  assert (H2s : 2 * sin t * cos t = cos phi).
  { rewrite <- sin_2a. replace (2 * t) with (PI / 2 + phi) by (unfold t; field).
    rewrite <- cos_sin. reflexivity. }
  assert (H2c : 2 * cos t * cos t - 1 = - sin phi).
  { rewrite <- cos_2a_cos. replace (2 * t) with (PI / 2 + phi) by (unfold t; field).
    rewrite sin_cos. ring. }
  pose proof (exp_inv_prod n) as He.
  pose proof (exp_pos n). pose proof (exp_pos (- n)).
  unfold tan.
  apply Rmult_eq_reg_r with (2 * cos t * cos t); [|nra].
  replace (sin t / cos t * (2 * cos t * cos t)) with (2 * sin t * cos t)
    by (field; lra).
  rewrite H2s. replace (2 * cos t * cos t) with (1 - sin phi) by lra.
  rewrite Ht. unfold sinhJs in *.
  set (E := exp n) in *. set (E' := exp (- n)) in *. set (c := cos phi) in *.
  nra.
Qed.

(** ** The helpers on tile addresses *)

Lemma tile2lat_sinhJs (y z : R) :
  tile2lat y z = 180 / PI * atan (sinhJs (tile_n y z)).
Proof. reflexivity. Qed.

Lemma tile_n_range (y z : R) :
  0 <= y <= Rpower 2 z -> - PI <= tile_n y z <= PI.
Proof.
  intros [Hlo Hhi]. unfold tile_n.
  pose proof (pow2_pos z) as Hp. pose proof PI_RGT_0 as Hpi.
  assert (Hq : 0 <= y / Rpower 2 z <= 1).
  { split.
    - apply Rmult_le_pos; [exact Hlo|]. left. apply Rinv_0_lt_compat, Hp.
    - apply Rmult_le_reg_r with (Rpower 2 z); [exact Hp|].
      replace (y / Rpower 2 z * Rpower 2 z) with y by (field; lra). lra. }
  replace (2 * PI * y / Rpower 2 z) with (2 * PI * (y / Rpower 2 z))
    by (field; lra).
  nra.
Qed.

Lemma deg_of_rad (k : R) : 180 / PI * (k * PI / 180) = k.
Proof. field. apply PI_neq0. Qed.

Lemma deg_of_rad_opp (k : R) : 180 / PI * (- (k * PI / 180)) = - k.
Proof. field. apply PI_neq0. Qed.

(** The arc tangent keeps every latitude strictly between the poles. *)
Lemma tile2lat_open (y z : R) : -90 < tile2lat y z < 90.
Proof.
  rewrite tile2lat_sinhJs. pose proof PI_RGT_0 as Hpi.
  pose proof (atan_bound (sinhJs (tile_n y z))) as [Hlo Hhi].
  set (phi := atan (sinhJs (tile_n y z))) in *.
  assert (Hk : 0 < 180 / PI) by (apply Rdiv_lt_0_compat; lra).
  assert (H1 : 180 / PI * phi < 180 / PI * (PI / 2))
    by (apply Rmult_lt_compat_l; assumption).
  assert (H2 : 180 / PI * (- PI / 2) < 180 / PI * phi)
    by (apply Rmult_lt_compat_l; assumption).
  replace (180 / PI * (PI / 2)) with 90 in H1 by (field; lra).
  replace (180 / PI * (- PI / 2)) with (-90) in H2 by (field; lra).
  split; assumption.
Qed.

Lemma tile2lat_bound (y z : R) :
  0 <= y <= Rpower 2 z -> -85.06 < tile2lat y z < 85.06.
Proof.
  intros Hy. rewrite tile2lat_sinhJs. pose proof PI_RGT_0 as Hpi.
  pose proof (atan_sinhJs_bound _ (tile_n_range y z Hy)) as [Hlo Hhi].
  set (phi := atan (sinhJs (tile_n y z))) in *.
  assert (Hk : 0 < 180 / PI) by (apply Rdiv_lt_0_compat; lra).
  assert (H1 : 180 / PI * phi < 180 / PI * (85.06 * PI / 180))
    by (apply Rmult_lt_compat_l; assumption).
  assert (H2 : 180 / PI * (- (85.06 * PI / 180)) < 180 / PI * phi)
    by (apply Rmult_lt_compat_l; assumption).
  rewrite deg_of_rad in H1. rewrite deg_of_rad_opp in H2.
  split; lra.
Qed.

Lemma clampedLat_range (lat : R) : -89.9999 <= clampedLat lat <= 89.9999.
Proof.
  unfold clampedLat, Rmax, Rmin.
  repeat destruct Rle_dec; lra.
Qed.

Lemma clampedLat_id (lat : R) :
  -89.9999 <= lat <= 89.9999 -> clampedLat lat = lat.
Proof.
  intros H. unfold clampedLat, Rmax, Rmin.
  repeat destruct Rle_dec; lra.
Qed.

Lemma clampedLat_changes (lat : R) :
  clampedLat lat <> lat -> lat < -89.9999 \/ 89.9999 < lat.
Proof.
  intros H. destruct (Rlt_dec lat (-89.9999)) as [|H1]; [now left|].
  destruct (Rlt_dec 89.9999 lat) as [|H2]; [now right|].
  exfalso. apply H, clampedLat_id. lra.
Qed.

Lemma mercatorAngle_range (lat : R) : 0 < mercatorAngle lat < PI / 2.
Proof.
  unfold mercatorAngle. pose proof (clampedLat_range lat) as Hc.
  pose proof PI_RGT_0 as Hpi. split; nra.
Qed.

(** With the clamp in place the tangent and the logarithm are always
    taken inside their domains. *)
Lemma mercatorDefined_always (lat : R) : mercatorDefined lat.
Proof.
  pose proof (mercatorAngle_range lat) as [Hlo Hhi]. split.
  - apply Rgt_not_eq, cos_gt_0; lra.
  - apply tan_gt_0; assumption.
Qed.

Lemma mercator_x (lon lat : R) :
  pt_x (lonLatToWebMercator lon lat) = lon / 180 * (PI * EARTH_RADIUS).
Proof. unfold lonLatToWebMercator, ORIGIN_SHIFT; simpl. field. Qed.

(** Where the clamp leaves the latitude of a tile edge alone, the projected
    ordinate is [n] times the radius. *)
Lemma mercator_y_unclamped (lon y z : R) :
  clampedLat (tile2lat y z) = tile2lat y z ->
  pt_y (lonLatToWebMercator lon (tile2lat y z)) = tile_n y z * EARTH_RADIUS.
Proof.
  intros Hid. unfold lonLatToWebMercator, mercatorAngle; simpl.
  rewrite Hid, tile2lat_sinhJs. pose proof PI_RGT_0 as Hpi.
  replace ((90 + 180 / PI * atan (sinhJs (tile_n y z))) * PI / 360)
    with (PI / 4 + atan (sinhJs (tile_n y z)) / 2) by (field; lra).
  rewrite tan_half_gudermann, ln_exp. reflexivity.
Qed.

Lemma mercator_y_in_range (lon y z : R) :
  0 <= y <= Rpower 2 z ->
  pt_y (lonLatToWebMercator lon (tile2lat y z)) = tile_n y z * EARTH_RADIUS.
Proof.
  intros Hy. apply mercator_y_unclamped, clampedLat_id.
  pose proof (tile2lat_bound y z Hy). lra.
Qed.

Lemma pow2_IZR (zoom : Z) : (0 <= zoom)%Z -> Rpower 2 (IZR zoom) = IZR (2 ^ zoom).
Proof.
  intros Hz. rewrite <- (Z2Nat.id zoom Hz) at 1.
  rewrite <- INR_IZR_INZ, Rpower_pow by lra.
  rewrite pow_IZR, Z2Nat.id by exact Hz. reflexivity.
Qed.



Lemma in_range_IZR (zoom row : Z) :
  (0 <= zoom)%Z -> (0 <= row <= 2 ^ zoom)%Z ->
  0 <= IZR row <= Rpower 2 (IZR zoom).
Proof.
  intros Hz [Hlo Hhi]. rewrite pow2_IZR by exact Hz.
  split; apply IZR_le; assumption.
Qed.

Lemma tile2lon_origin (x : R) : tile2lon x 0 = x * 360 - 180.
Proof. unfold tile2lon. rewrite Rpower_O by lra. field. Qed.

Lemma tile_n_origin (y : R) : tile_n y 0 = PI - 2 * PI * y.
Proof. unfold tile_n. rewrite Rpower_O by lra. field. Qed.

Lemma world_edge : Rabs (PI * EARTH_RADIUS - 20037508.34) < 0.01.
Proof.
  pose proof PI_bounds as [Hlo Hhi]. unfold EARTH_RADIUS.
  apply Rabs_def1; lra.
Qed.

(** ** A row on which the clamp acts *)

Lemma pow_le_self (x : R) (n : nat) : 0 <= x <= 1 -> 0 <= x ^ S n <= x.
Proof.
  intros Hx. induction n as [|n IH].
  - simpl. lra.
  - change (x ^ S (S n)) with (x * x ^ S n). nra.
Qed.

Lemma sin_ge_half (x : R) : 0 <= x <= 1 -> x / 2 <= sin x.
Proof.
  intros Hx. pose proof PI_bounds as HPI.
  destruct (SIN x ltac:(lra) ltac:(lra)) as [Hlb _].
  unfold sin_lb, sin_approx, sin_term in Hlb. cbn [sum_f_R0] in Hlb.
  change (2 * 0 + 1)%nat with 1%nat in Hlb.
  change (2 * 1 + 1)%nat with 3%nat in Hlb.
  change (2 * 2 + 1)%nat with 5%nat in Hlb.
  change (2 * 3 + 1)%nat with 7%nat in Hlb.
  rewrite (INR_fact_val 1 1), (INR_fact_val 3 6), (INR_fact_val 5 120),
    (INR_fact_val 7 5040) in Hlb by reflexivity.
  assert (Hpoly : x - x ^ 3 / 6 + x ^ 5 / 120 - x ^ 7 / 5040 <= sin x).
  { eapply Rle_trans; [|exact Hlb]. right. field. }
  pose proof (pow_le_self x 2 Hx). pose proof (pow_le_self x 4 Hx).
  pose proof (pow_le_self x 6 Hx). lra.
Qed.

Lemma exp_double (x a : R) : 0 <= a <= exp x -> a * a <= exp (x + x).
Proof. intros Ha. rewrite exp_plus. nra. Qed.

Lemma exp_28 : 268435456 <= exp 28.
Proof.
  assert (H1 : 0 <= 2 <= exp 1) by (pose proof (exp_ineq1_le 1); lra).
  pose proof (exp_double 1 2 H1) as H2.
  replace (1 + 1) with 2 in H2 by lra.
  assert (H3 : 0 <= 2 * 2 * 2 <= exp 3).
  { replace 3 with (2 + 1) by lra. rewrite exp_plus. nra. }
  assert (H7 : 0 <= 128 <= exp 7).
  { pose proof (exp_double 3 _ H3) as H6.
    replace 7 with ((3 + 3) + 1) by lra. rewrite (exp_plus (3 + 3)). nra. }
  pose proof (exp_double 7 _ H7) as H14. replace (7 + 7) with 14 in H14 by lra.
  assert (H14' : 0 <= 128 * 128 <= exp 14) by lra.
  pose proof (exp_double 14 _ H14') as H28.
  replace (14 + 14) with 28 in H28 by lra. lra.
Qed.

Lemma tan_899999 : tan (89.9999 * PI / 180) < 1200000.
Proof.
  pose proof PI_bounds as HPI.
  set (a := 0.0001 * PI / 180).
  assert (Ha : 0 < a < 1) by (unfold a; lra).
  replace (89.9999 * PI / 180) with (PI / 2 - a) by (unfold a; lra).
  unfold tan. rewrite (sin_shift a), (cos_shift a).
  pose proof (sin_ge_half a ltac:(lra)) as Hs.
  pose proof (COS_bound a) as [_ Hc].
  assert (Hs0 : 0 < sin a) by lra.
  apply Rmult_lt_reg_r with (sin a); [exact Hs0|].
  replace (cos a / sin a * sin a) with (cos a) by (field; lra).
  unfold a in *. lra.
Qed.

Lemma tile2lat_beyond_clamp : 89.9999 < tile2lat (-4) 0.
Proof.
  pose proof PI_bounds as HPI.
  rewrite tile2lat_sinhJs, tile_n_origin.
  set (n := PI - 2 * PI * -4).
  assert (Hn : 28 <= n) by (unfold n; lra).
  assert (Hs : 1200000 < sinhJs n).
  { apply Rlt_le_trans with (sinhJs 28); [|apply sinhJs_le, Hn].
    unfold sinhJs. pose proof exp_28.
    assert (exp (Ropp 28) < exp 0) by (apply exp_increasing; lra).
    rewrite exp_0 in *. lra. }
  set (b := 89.9999 * PI / 180).
  assert (Hb : - (PI / 2) < b < PI / 2) by (unfold b; lra).
  assert (Hphi : b < atan (sinhJs n)).
  { rewrite <- (atan_tan b Hb). apply atan_increasing.
    pose proof tan_899999. fold b in H. lra. }
  assert (Hk : 0 < 180 / PI) by (apply Rdiv_lt_0_compat; lra).
  pose proof (Rmult_lt_compat_l _ _ _ Hk Hphi) as Hm.
  unfold b in Hm. rewrite deg_of_rad in Hm. exact Hm.
Qed.

(** The clamp is live: on the row -4 of zoom 0, above the top of the
    map, it replaces the latitude. *)
Lemma clamp_active_out_of_range :
  clampedLat (tile2lat (-4) 0) = 89.9999 /\
  clampedLat (tile2lat (-4) 0) <> tile2lat (-4) 0.
Proof.
  pose proof tile2lat_beyond_clamp as H.
  assert (Hc : clampedLat (tile2lat (-4) 0) = 89.9999).
  { unfold clampedLat, Rmax, Rmin. repeat destruct Rle_dec; lra. }
  split; [exact Hc|]. rewrite Hc. lra.
Qed.

(** ** Doubles: comparisons and the clamp *)

Local Open Scope float_scope.

Lemma SFcompare_refl (x : spec_float) :
  x <> S754_nan -> SFcompare x x = Some Eq.
Proof.
  destruct x as [s|s| |s m e]; intros H; try congruence.
  - reflexivity.
  - destruct s; reflexivity.
  - unfold SFcompare.
    destruct s; rewrite Z.compare_refl, Pos.compare_cont_refl; reflexivity.
Qed.

Lemma SFcompare_antisym (a b : spec_float) :
  SFcompare b a = option_map CompOpp (SFcompare a b).
Proof.
  destruct a as [s1|s1| |s1 m1 e1], b as [s2|s2| |s2 m2 e2];
    try reflexivity; try (destruct s1; reflexivity); try (destruct s2; reflexivity);
    try (destruct s1, s2; reflexivity).
  unfold SFcompare. cbn [option_map]. f_equal.
  destruct s1, s2; try reflexivity;
    rewrite (Z.compare_antisym e1 e2), (ZC4 m2 m1);
    destruct (e1 ?= e2)%Z; cbn [CompOpp]; try reflexivity;
    destruct (Pos.compare_cont Eq m1 m2); reflexivity.
Qed.

Lemma SFcompare_finite_eq (s1 s2 : bool) (m1 m2 : positive) (e1 e2 : Z) :
  SFcompare (S754_finite s1 m1 e1) (S754_finite s2 m2 e2) = Some Eq ->
  S754_finite s1 m1 e1 = S754_finite s2 m2 e2.
Proof.
  unfold SFcompare. intros H. injection H as H.
  destruct s1, s2; try discriminate;
    destruct (e1 ?= e2)%Z eqn:He; try discriminate;
    apply Z.compare_eq in He; subst e2.
  - destruct (Pos.compare_cont Eq m1 m2) eqn:Hm; try discriminate.
    apply Pcompare_Eq_eq in Hm. now subst m2.
  - apply Pcompare_Eq_eq in H. now subst m2.
Qed.


Lemma ltb_asym (x y : float) : (x <? y) = true -> (y <? x) = false.
Proof.
  rewrite !ltb_spec. unfold SFltb.
  rewrite (SFcompare_antisym (Prim2SF x) (Prim2SF y)).
  destruct (SFcompare (Prim2SF x) (Prim2SF y)) as [[| |]|]; cbn; congruence.
Qed.

(** Two finite doubles, neither below the other, are the same double. *)
Lemma ltb_neither_finite (x y : float) (s1 s2 : bool) (m1 m2 : positive) (e1 e2 : Z) :
  Prim2SF x = S754_finite s1 m1 e1 ->
  Prim2SF y = S754_finite s2 m2 e2 ->
  (x <? y) = false -> (y <? x) = false -> x = y.
Proof.
  intros Hx Hy. rewrite !ltb_spec. unfold SFltb.
  rewrite (SFcompare_antisym (Prim2SF x) (Prim2SF y)), Hx, Hy.
  destruct (SFcompare _ _) as [[| |]|] eqn:Hc; cbn; try discriminate.
  intros _ _. apply Prim2SF_inj. rewrite Hx, Hy.
  now apply SFcompare_finite_eq.
Qed.

Lemma leb_ltb (x y : float) : (x <=? y) = true -> (y <? x) = false.
Proof.
  rewrite leb_spec, ltb_spec. unfold SFleb, SFltb.
  rewrite (SFcompare_antisym (Prim2SF x) (Prim2SF y)).
  destruct (SFcompare (Prim2SF x) (Prim2SF y)) as [[| |]|]; cbn; congruence.
Qed.

Lemma leb_of_not_ltb_finite (x y : float) (s1 s2 : bool) (m1 m2 : positive) (e1 e2 : Z) :
  Prim2SF x = S754_finite s1 m1 e1 ->
  Prim2SF y = S754_finite s2 m2 e2 ->
  (y <? x) = false -> (x <=? y) = true.
Proof.
  intros Hx Hy. rewrite leb_spec, ltb_spec. unfold SFleb, SFltb.
  rewrite (SFcompare_antisym (Prim2SF x) (Prim2SF y)), Hx, Hy.
  destruct (SFcompare _ _) as [[| |]|] eqn:Hc; cbn; try congruence.
  discriminate.
Qed.

Lemma is_nan_finite (x : float) (s : bool) (m : positive) (e : Z) :
  Prim2SF x = S754_finite s m e -> is_nan x = false.
Proof.
  intros H. unfold is_nan. rewrite FloatAxioms.eqb_spec, H. unfold SFeqb.
  rewrite SFcompare_refl by discriminate. reflexivity.
Qed.

Lemma of_SF (x : float) (v : spec_float) : Prim2SF x = v -> x = SF2Prim v.
Proof. intros <-. symmetry. apply SF2Prim_Prim2SF. Qed.

Lemma float_neq (a b : float) : PrimFloat.Leibniz.eqb a b = false -> a <> b.
Proof.
  intros H E. apply FloatAxioms.Leibniz.eqb_spec in E. congruence.
Qed.

(** [Math.max(Math.min(lat, 89.9999), -89.9999)] is the clamp in words,
    on every double: the zeros, the infinities and NaN included. *)
Lemma clampedLat_words (lat : float) :
  Double.clampedLat lat = DoubleSpec.clamp lat.
Proof.
  unfold Double.clampedLat, DoubleSpec.clamp.
  destruct (Prim2SF lat) as [s|s| |s m e] eqn:E.
  - apply of_SF in E. subst lat. destruct s; reflexivity.
  - apply of_SF in E. subst lat. destruct s; reflexivity.
  - apply of_SF in E. subst lat. reflexivity.
  - pose proof (is_nan_finite _ _ _ _ E) as Hn.
    destruct s.
    + assert (Hh : (lat <? 89.9999) = true) by (rewrite ltb_spec, E; reflexivity).
      assert (Hh' : (89.9999 <? lat) = false) by (rewrite ltb_spec, E; reflexivity).
      unfold Double.Math_min. rewrite Hn, Hh. cbn [orb].
      change (is_nan 89.9999) with false. cbn iota.
      unfold Double.Math_max. rewrite Hn, Hh'.
      change (is_nan (-89.9999)) with false. cbn [orb]. cbn iota.
      destruct (-89.9999 <? lat) eqn:A, (lat <? -89.9999) eqn:B; try reflexivity.
      * apply ltb_asym in A. congruence.
      * assert (Heq : lat = -89.9999).
        { eapply ltb_neither_finite; [exact E|reflexivity|exact B|exact A]. }
        rewrite Heq. reflexivity.
    + assert (Hl : (lat <? -89.9999) = false) by (rewrite ltb_spec, E; reflexivity).
      assert (Hl' : (-89.9999 <? lat) = true) by (rewrite ltb_spec, E; reflexivity).
      rewrite Hl. unfold Double.Math_min. rewrite Hn.
      change (is_nan 89.9999) with false. cbn [orb]. cbn iota.
      destruct (lat <? 89.9999) eqn:A, (89.9999 <? lat) eqn:B.
      * apply ltb_asym in A. congruence.
      * unfold Double.Math_max. rewrite Hn, Hl'. reflexivity.
      * reflexivity.
      * assert (Heq : lat = 89.9999).
        { eapply ltb_neither_finite; [exact E|reflexivity|exact A|exact B]. }
        rewrite Heq. reflexivity.
Qed.

Section DoubleHelpers.

Variable Math_pow : float -> float -> float.
Variable Math_exp Math_atan Math_tan Math_log : float -> float.

Local Abbreviation bbox :=
  (Double.tileBBox Math_pow Math_exp Math_atan Math_tan Math_log).


(** Row 2^1022 of zoom 1022: [2 * Math.PI * y] overflows, [n] is
    -Infinity and the latitude is -90. *)
Lemma tile2lat_overflow :
  Math_pow 2 1022 = 0x1p+1022 ->
  Math_exp infinity = infinity ->
  Math_exp neg_infinity = 0 ->
  Math_atan neg_infinity = -1.5707963267948966 ->
  Double.tile2lat Math_pow Math_exp Math_atan 0x1p+1022 1022 = -90.
Proof.
  intros Hpow Hexp1 Hexp2 Hatan. unfold Double.tile2lat. rewrite Hpow.
  replace (Double.Math_PI - 2 * Double.Math_PI * 0x1p+1022 / 0x1p+1022)
    with neg_infinity by reflexivity.
  replace (- neg_infinity) with infinity by reflexivity.
  rewrite Hexp1, Hexp2.
  replace (0.5 * (0 - infinity)) with neg_infinity by reflexivity.
  rewrite Hatan. reflexivity.
Qed.

End DoubleHelpers.

Local Close Scope float_scope.

(** ** The numeric claims *)

(** C1, as the code computes it.  On doubles, for every zoom, column
    and row (the finite ones the endpoint accepts, and all others) and
    whatever the engine's [**], [Math.exp], [Math.atan], [Math.tan] and
    [Math.log] return, the box of the handler is the box of the specified
    algorithm with the operations in this order: longitudes
    col / 2^zoom * 360 - 180 at column and column + 1; latitudes
    (180/pi) atan(0.5 (e^n - e^(-n))), n = pi - 2 pi row / 2^zoom, at row
    and row + 1; x = lon (pi R) / 180 with the product pi R taken first;
    y = ln(tan((90 + lat) pi / 360)) R on the latitude clamped to
    [-89.9999, 89.9999]; minX = west.x, minY = south.y, maxX = east.x,
    maxY = north.y. *)
Theorem C1_bbox_follows_algorithm
    (Math_pow : float -> float -> float)
    (Math_exp Math_atan Math_tan Math_log : float -> float)
    (zoom column row : float) :
  Double.tileBBox Math_pow Math_exp Math_atan Math_tan Math_log zoom column row
  = DoubleSpec.computeProjectedBBox Math_pow Math_exp Math_atan Math_tan Math_log
      zoom column row.
Proof.
  unfold Double.tileBBox, DoubleSpec.computeProjectedBBox,
    Double.lonLatToWebMercator. cbn [Double.pt_x Double.pt_y].
  rewrite !clampedLat_words. reflexivity.
Qed.

(** C1 as the specification words it fails on doubles: the west edge of
    column 20 at zoom 10 is -172.96875 degrees; the code projects it to
    -19254793.17314904, and both forms the specification gives for x
    (lon R pi / 180 and lon / 180 (R pi)) to -19254793.173149038. *)
Lemma C1_counterexample :
  (20 / 1024 * 360 - 180 = -172.96875 /\
   -172.96875 * Double.ORIGIN_SHIFT / 180 = -19254793.17314904 /\
   DoubleSpec.projX_words (-172.96875) = -19254793.173149038 /\
   DoubleSpec.projX_words' (-172.96875) = -19254793.173149038)%float /\
  forall Math_pow Math_exp Math_atan Math_tan Math_log row,
    Math_pow 2%float 10%float = 1024%float ->
    let b := Double.tileBBox Math_pow Math_exp Math_atan Math_tan Math_log
               10%float 20%float row in
    let west := DoubleSpec.lon Math_pow 20%float 10%float in
    Double.minX b <> DoubleSpec.projX_words west /\
    Double.minX b <> DoubleSpec.projX_words' west.
Proof.
  split; [repeat split; reflexivity|].
  intros Math_pow Math_exp Math_atan Math_tan Math_log row Hpow.
  unfold Double.tileBBox, Double.lonLatToWebMercator, Double.tile2lon, DoubleSpec.lon.
  cbn [Double.minX Double.pt_x]. rewrite Hpow.
  split; apply float_neq; reflexivity.
Qed.





(** C8.  The tile (0, 0, 0) projects to the whole Web Mercator square:
    its four bounds are -pi R, -pi R, pi R, pi R, each within 0.01 of
    -20037508.34, -20037508.34, 20037508.34, 20037508.34. *)
Theorem C8_world_tile :
  let b := tileBBox 0 0 0 in
  (minX b = - (PI * EARTH_RADIUS) /\ minY b = - (PI * EARTH_RADIUS) /\
   maxX b = PI * EARTH_RADIUS /\ maxY b = PI * EARTH_RADIUS) /\
  Rabs (minX b - (-20037508.34)) < 0.01 /\
  Rabs (minY b - (-20037508.34)) < 0.01 /\
  Rabs (maxX b - 20037508.34) < 0.01 /\
  Rabs (maxY b - 20037508.34) < 0.01.
Proof.
  intros b.
  assert (Hin : forall y, 0 <= y <= 1 -> 0 <= y <= Rpower 2 0).
  { intros y Hy. rewrite Rpower_O by lra. exact Hy. }
  assert (HminX : minX b = - (PI * EARTH_RADIUS)).
  { subst b. unfold tileBBox; cbn [minX minY maxX maxY]. rewrite mercator_x, tile2lon_origin. field. }
  assert (HmaxX : maxX b = PI * EARTH_RADIUS).
  { subst b. unfold tileBBox; cbn [minX minY maxX maxY]. rewrite mercator_x, tile2lon_origin. field. }
  assert (HminY : minY b = - (PI * EARTH_RADIUS)).
  { subst b. unfold tileBBox; cbn [minX minY maxX maxY].
    rewrite mercator_y_in_range by (apply Hin; lra).
    rewrite tile_n_origin. ring. }
  assert (HmaxY : maxY b = PI * EARTH_RADIUS).
  { subst b. unfold tileBBox; cbn [minX minY maxX maxY].
    rewrite mercator_y_in_range by (apply Hin; lra).
    rewrite tile_n_origin. ring. }
  pose proof world_edge as Hw. apply Rabs_def2 in Hw. destruct Hw as [Hw1 Hw2].
  rewrite HminX, HminY, HmaxX, HmaxY.
  repeat split; try reflexivity; apply Rabs_def1; lra.
Qed.

(** C9.  For every integer zoom >= 0 the north edge of row 0 stays
    strictly short of the pole, the tangent and the logarithm of the
    projection are taken inside their domains, and the projected ordinate
    is the finite value pi R, a little above 20037508.  *)
Theorem C9_row0_finite (zoom : Z) (lon : R) :
  (0 <= zoom)%Z ->
  let lat := tile2lat 0 (IZR zoom) in
  let y := pt_y (lonLatToWebMercator lon lat) in
  -90 < lat < 90 /\
  mercatorDefined lat /\
  y = PI * EARTH_RADIUS /\
  20037508 < y < 20037509.
Proof.
  intros Hz lat y.
  assert (Hy : y = PI * EARTH_RADIUS).
  { subst y lat. rewrite mercator_y_in_range.
    - unfold tile_n. pose proof (pow2_neq0 (IZR zoom)). field. assumption.
    - pose proof (pow2_pos (IZR zoom)). lra. }
  split; [apply tile2lat_open|].
  split; [apply mercatorDefined_always|].
  split; [exact Hy|].
  rewrite Hy. pose proof PI_bounds as [Hlo Hhi]. unfold EARTH_RADIUS. lra.
Qed.

Lemma C9_witness :
  let lat := tile2lat 0 (IZR 18) in
  let y := pt_y (lonLatToWebMercator (-180) lat) in
  -90 < lat < 90 /\ mercatorDefined lat /\
  y = PI * EARTH_RADIUS /\ 20037508 < y < 20037509.
Proof. apply (C9_row0_finite 18 (-180)); lia. Defined.

(** C10, on the zooms where it holds.  For an integer zoom from 0 to 1021: on every
    row index from 0 to 2^zoom the latitude of [tile2lat] lies strictly
    inside (-85.06, 85.06), so the clamp of [lonLatToWebMercator] returns
    it unchanged; hence a row on which the clamp changes the latitude is
    below 0 or above 2^zoom. *)
Theorem C10_clamp_idle_in_range (zoom row : Z) :
  (0 <= zoom <= 1021)%Z ->
  let lat := tile2lat (IZR row) (IZR zoom) in
  ((0 <= row <= 2 ^ zoom)%Z ->
     -85.06 < lat < 85.06 /\ clampedLat lat = lat) /\
  (clampedLat lat <> lat -> (row < 0)%Z \/ (2 ^ zoom < row)%Z).
Proof.
  intros [Hz _] lat.
  assert (Hin : (0 <= row <= 2 ^ zoom)%Z ->
                -85.06 < lat < 85.06 /\ clampedLat lat = lat).
  { intros Hr. pose proof (tile2lat_bound _ _ (in_range_IZR zoom row Hz Hr)) as Hb.
    fold lat in Hb. split; [exact Hb|]. apply clampedLat_id. lra. }
  split; [exact Hin|].
  intros Hne.
  destruct (Z_lt_dec row 0) as [|H0]; [now left|].
  destruct (Z_lt_dec (2 ^ zoom) row) as [|H1]; [now right|].
  exfalso. apply Hne. apply Hin. lia.
Qed.

Lemma C10_witness :
  let lat := tile2lat (IZR 4) (IZR 2) in
  -85.06 < lat < 85.06 /\ clampedLat lat = lat.
Proof.
  apply (proj1 (C10_clamp_idle_in_range 2 4 ltac:(lia))). simpl. lia.
Defined.

(** C10 as the specification words it fails on doubles: at zoom 1022
    the row 2^1022 is in range, but [2 * Math.PI * y] overflows to
    Infinity, [n] is -Infinity, and with [Math.exp] and [Math.atan] at
    the infinities as ECMAScript has them the latitude is -90: outside
    (-85.06, 85.06), and changed by the clamp to -89.9999. *)
Lemma C10_counterexample :
  ((0 <= 1022)%Z /\ (0 <= 2 ^ 1022 <= 2 ^ 1022)%Z) /\
  (2 * Double.Math_PI * 0x1p+1022 = infinity)%float /\
  forall Math_pow Math_exp Math_atan,
    Math_pow 2%float 1022%float = 0x1p+1022%float ->
    Math_exp infinity = infinity ->
    Math_exp neg_infinity = 0%float ->
    Math_atan neg_infinity = (-1.5707963267948966)%float ->
    let lat := Double.tile2lat Math_pow Math_exp Math_atan 0x1p+1022%float 1022%float in
    lat = (-90)%float /\ (-85.06 <? lat)%float = false /\
    Double.clampedLat lat = (-89.9999)%float /\ Double.clampedLat lat <> lat.
Proof.
  split; [lia|]. split; [reflexivity|].
  intros Math_pow Math_exp Math_atan Hpow Hexp1 Hexp2 Hatan lat.
  assert (Hlat : lat = (-90)%float) by (apply tile2lat_overflow; assumption).
  rewrite Hlat. split; [reflexivity|]. split; [reflexivity|]. split; [reflexivity|].
  apply float_neq. reflexivity.
Qed.

(** ** Percent-encoding *)

Lemma percentDecode_plain (c : ascii) (r : string) :
  Ascii.eqb c "%"%char = false ->
  percentDecode (String c r) = String c (percentDecode r).
Proof.
  intros Hc. destruct r as [|h [|l r']]; cbn [percentDecode]; try reflexivity.
  rewrite Hc. reflexivity.
Qed.

Lemma isUnreserved_not_percent (c : ascii) :
  isUnreserved c = true -> Ascii.eqb c "%"%char = false.
Proof.
  destruct (Ascii.eqb_spec c "%"%char) as [->|]; [|reflexivity].
  vm_compute. discriminate.
Qed.

Lemma hex_roundtrip (c : ascii) :
  let n := nat_of_ascii c in
  hexValue (hexDigit (n / 16)) = Some (n / 16)%nat /\
  hexValue (hexDigit (n mod 16)) = Some (n mod 16)%nat /\
  ascii_of_nat (16 * (n / 16) + n mod 16) = c.
Proof.
  destruct c as [[] [] [] [] [] [] [] []]; vm_compute; repeat split.
Qed.

Lemma percentDecode_byte (c : ascii) (r : string) :
  percentDecode (percentByte c ++ r) = String c (percentDecode r).
Proof.
  destruct (hex_roundtrip c) as (Hh & Hl & Hc).
  unfold percentByte. cbn [append percentDecode].
  rewrite Ascii.eqb_refl, Hh, Hl, Hc. reflexivity.
Qed.

(** What [encodeURIComponent] writes, percent-decoding reads back. *)
Lemma percentDecode_encode (s : string) :
  percentDecode (encodeURIComponent s) = s.
Proof.
  induction s as [|c rest IH]; [reflexivity|].
  cbn [encodeURIComponent]. destruct (isUnreserved c) eqn:Hc.
  - rewrite percentDecode_plain by (apply isUnreserved_not_percent, Hc).
    now rewrite IH.
  - rewrite percentDecode_byte. now rewrite IH.
Qed.

Lemma allChars_app (p : ascii -> bool) (s t : string) :
  allChars p (s ++ t) = allChars p s && allChars p t.
Proof.
  induction s as [|c rest IH]; [reflexivity|].
  cbn [append allChars]. rewrite IH. apply andb_assoc.
Qed.

Lemma hexDigit_encoded (c : ascii) :
  let n := nat_of_ascii c in
  isEncoded (hexDigit (n / 16)) = true /\ isEncoded (hexDigit (n mod 16)) = true.
Proof.
  destruct c as [[] [] [] [] [] [] [] []]; vm_compute; split; reflexivity.
Qed.

(** The encoded text is made of unreserved characters and escapes only:
    in particular it holds no [&], [=], [#] or [,]. *)
Lemma encodeURIComponent_chars (s : string) :
  allChars isEncoded (encodeURIComponent s) = true.
Proof.
  induction s as [|c rest IH]; [reflexivity|].
  cbn [encodeURIComponent]. destruct (isUnreserved c) eqn:Hc.
  - cbn [allChars]. unfold isEncoded at 1. rewrite Hc, IH. reflexivity.
  - rewrite allChars_app, IH. destruct (hexDigit_encoded c) as [Hh Hl].
    unfold percentByte. cbn [allChars]. rewrite Hh, Hl. reflexivity.
Qed.

(** ** The handler *)

Local Open Scope string_scope.

Lemma string_app_assoc (s t u : string) : (s ++ t) ++ u = s ++ (t ++ u).
Proof.
  induction s as [|c rest IH]; [reflexivity|].
  cbn [append]. now rewrite IH.
Qed.

(** [NextResponse.json] makes no call of [fetch]. *)
Lemma NextResponse_json_log (obj : ErrorJson) (status : Z) (log : list FetchCall) :
  snd (NextResponse_json obj status log) = log.
Proof. unfold NextResponse_json. destruct (initError status); reflexivity. Qed.

Lemma NextResponse_json_accepts (obj : ErrorJson) (status : Z) (log : list FetchCall) :
  initError status = None ->
  NextResponse_json obj status log
  = (Normal {| r_status := status;
               r_headers := [("content-type", "application/json")];
               r_body := JsonBody obj |}, log).
Proof. intros H. unfold NextResponse_json. now rewrite H. Qed.

Lemma NextResponse_json_refuses (obj : ErrorJson) (status : Z) (e : JsError)
    (log : list FetchCall) :
  initError status = Some e ->
  NextResponse_json obj status log = (Throw e, log).
Proof. intros H. unfold NextResponse_json. now rewrite H. Qed.

(** The statuses that [Response] accepts with a body. *)
Lemma initError_none (status : Z) :
  initError status = None <->
  (200 <= status <= 599)%Z /\ status <> 204%Z /\ status <> 205%Z /\ status <> 304%Z.
Proof.
  unfold initError, isNullBodyStatus. cbn [existsb].
  destruct (Z.leb_spec 200 status), (Z.leb_spec status 599); cbn [andb negb];
    try (split; [discriminate | lia]).
  destruct (Z.eqb_spec status 101); [lia|].
  destruct (Z.eqb_spec status 103); [lia|].
  destruct (Z.eqb_spec status 204); [split; [discriminate | lia]|].
  destruct (Z.eqb_spec status 205); [split; [discriminate | lia]|].
  destruct (Z.eqb_spec status 304); [split; [discriminate | lia]|].
  cbn [orb]. split; [lia | reflexivity].
Qed.

Section HandlerProperties.

Variable Number : string -> JsNumber.
Variable numberToString : R -> string.
Variable env : option string.
Variable network : FetchCall -> Completion UpstreamResponse.

Let run := serve Number numberToString env network.
Let callFor := exportCall numberToString env.

Lemma GET_accepted (context : option Context) (zoom column row : R) :
  accepted Number context zoom column row ->
  GET Number numberToString env network context
  = proxy numberToString env network zoom column row.
Proof.
  intros (z & x & y & Hps & Hz & Hx & Hy). unfold GET.
  rewrite Hps; cbn [p_z p_x p_y]. rewrite Hz, Hx, Hy. reflexivity.
Qed.

(** One run of the proxy, by what the network answers. *)
Lemma proxy_run (zoom column row : R) :
  proxy numberToString env network zoom column row []
  = let call := callFor (tileBBox zoom column row) in
    match network call with
    | Throw e => (Throw e, [call])
    | Normal up =>
        if upstreamFailed up then
          let message := match up_text up with Normal t => t | Throw _ => "" end in
          NextResponse_json {| error := errorMessage message up |}
                            (errorStatus up) [call]
        else
          (Normal {| r_status := up_status up;
                     r_headers := [("Content-Type", "image/png");
                                   ("Cache-Control", "public, max-age=600")];
                     r_body := StreamBody (up_body up) |}, [call])
    end.
Proof.
  unfold proxy, bind, fetch, callFor. cbn [app].
  destruct (network _) as [up|e]; [|reflexivity].
  destruct (upstreamFailed up); [|reflexivity].
  unfold catch, text, ret. destruct (up_text up); reflexivity.
Qed.

Lemma serve_accepted (context : option Context) (zoom column row : R) :
  accepted Number context zoom column row ->
  run context = proxy numberToString env network zoom column row [].
Proof. intros H. unfold run, serve. now rewrite (GET_accepted _ _ _ _ H). Qed.

(** On an accepted request the log holds the one export call, whatever
    the network answers. *)
Lemma serve_log_accepted (context : option Context) (zoom column row : R) :
  accepted Number context zoom column row ->
  snd (run context) = [callFor (tileBBox zoom column row)].
Proof.
  intros Hacc. rewrite (serve_accepted _ _ _ _ Hacc), proxy_run. cbn zeta.
  destruct (network _) as [up|e]; [|reflexivity].
  destruct (upstreamFailed up); [apply NextResponse_json_log | reflexivity].
Qed.

(** No request makes the handler call [fetch] twice. *)
Lemma serve_log_short (context : option Context) :
  (List.length (snd (run context)) <= 1)%nat.
Proof.
  unfold run, serve, GET.
  destruct (p_z (paramsOf context)) as [z|]; [|cbn; lia].
  destruct (p_x (paramsOf context)) as [x|]; [|cbn; lia].
  destruct (p_y (paramsOf context)) as [y|]; [|cbn; lia].
  destruct (Number z) as [zoom| | |]; try (cbn; lia).
  destruct (Number x) as [column| | |]; try (cbn; lia).
  destruct (Number y) as [row| | |]; try (cbn; lia).
  rewrite proxy_run. cbn zeta.
  destruct (network _) as [up|e]; [|cbn; lia].
  destruct (upstreamFailed up); [rewrite NextResponse_json_log|]; cbn; lia.
Qed.

Lemma upstreamFailed_iff (up : UpstreamResponse) :
  upstreamFailed up = true <->
  (up_status up < 200 \/ 299 < up_status up)%Z \/ up_body up = None.
Proof.
  unfold upstreamFailed, up_ok.
  destruct (up_body up) as [b|]; split; intros H.
  - left. rewrite orb_false_r in H.
    apply negb_true_iff, andb_false_iff in H.
    destruct H as [H|H]; [left; apply Z.leb_gt in H | right; apply Z.leb_gt in H];
      exact H.
  - rewrite orb_false_r. apply negb_true_iff, andb_false_iff.
    destruct H as [[H|H]|H]; [left|right|discriminate]; apply Z.leb_gt; exact H.
  - now right.
  - apply orb_true_r.
Qed.

(** The export URL, spelled out. *)
Lemma exportUrl_spelled (b : BBox) :
  exportUrl numberToString env b
  = UAVSAR_SERVICE_URL env ++ "/export?bbox="
      ++ encodeURIComponent (bboxString numberToString b)
      ++ "&bboxSR=102100&imageSR=102100&size=256,256&format=png32&transparent=true&f=image".
Proof.
  unfold exportUrl.
  change (intToString TILE_SIZE) with "256".
  rewrite !string_app_assoc. reflexivity.
Qed.

Lemma bboxString_spelled (b : BBox) :
  bboxString numberToString b
  = numberToString (minX b) ++ "," ++ numberToString (minY b) ++ ","
      ++ numberToString (maxX b) ++ "," ++ numberToString (maxY b).
Proof. reflexivity. Qed.

End HandlerProperties.

(** ** The endpoint claims *)

Section EndpointClaims.

Variable Number : string -> JsNumber.
Variable numberToString : R -> string.
Variable env : option string.
Variable network : FetchCall -> Completion UpstreamResponse.

Local Abbreviation run := (serve Number numberToString env network).
Local Abbreviation callFor := (exportCall numberToString env).

(** C2.  A request that lacks one of z, x, y is answered 400 with
    the JSON body [{error: "Missing tile coordinates"}]; a request that
    has all three, one of which does not convert to a finite number, is
    answered 400 with [{error: "Invalid tile coordinates"}]; in both
    cases [fetch] is not called. *)
Theorem C2_bad_coordinates_rejected (context : option Context) :
  let ps := paramsOf context in
  ((p_z ps = None \/ p_x ps = None \/ p_y ps = None) ->
     run context
     = (Normal {| r_status := 400;
                  r_headers := [("content-type", "application/json")];
                  r_body := JsonBody {| error := "Missing tile coordinates" |} |},
        [])) /\
  (forall z x y,
     p_z ps = Some z -> p_x ps = Some x -> p_y ps = Some y ->
     (Number_isFinite (Number z) = false \/
      Number_isFinite (Number x) = false \/
      Number_isFinite (Number y) = false) ->
     run context
     = (Normal {| r_status := 400;
                  r_headers := [("content-type", "application/json")];
                  r_body := JsonBody {| error := "Invalid tile coordinates" |} |},
        [])).
Proof.
  intros ps. unfold serve, GET. fold ps. split.
  - intros H.
    destruct (p_z ps) as [z|], (p_x ps) as [x|], (p_y ps) as [y|];
      try reflexivity.
    destruct H as [H|[H|H]]; discriminate.
  - intros z x y -> -> -> H.
    destruct (Number z) as [zoom| | |], (Number x) as [column| | |],
      (Number y) as [row| | |]; try reflexivity.
    destruct H as [H|[H|H]]; discriminate.
Qed.

(** C4.  When the upstream answers in 200..299 with a body, the
    handler's response has the upstream's status, [Content-Type:
    image/png], [Cache-Control: public, max-age=600], and the upstream's
    bytes as its body. *)
Theorem C4_upstream_success_relayed
    (context : option Context) (zoom column row : R)
    (up : UpstreamResponse) (bytes : list Byte.byte) :
  accepted Number context zoom column row ->
  network (callFor (tileBBox zoom column row)) = Normal up ->
  (200 <= up_status up <= 299)%Z ->
  up_body up = Some bytes ->
  fst (run context)
  = Normal {| r_status := up_status up;
              r_headers := [("Content-Type", "image/png");
                            ("Cache-Control", "public, max-age=600")];
              r_body := StreamBody (Some bytes) |}.
Proof.
  intros Hacc Hnet Hok Hbody.
  rewrite (serve_accepted _ _ _ _ _ _ _ _ Hacc), proxy_run. cbn zeta.
  rewrite Hnet.
  assert (Hf : upstreamFailed up = false).
  { destruct (upstreamFailed up) eqn:E; [|reflexivity].
    apply upstreamFailed_iff in E. rewrite Hbody in E.
    destruct E as [[E|E]|E]; [lia|lia|discriminate]. }
  rewrite Hf, Hbody. reflexivity.
Qed.

(** C5, as the code has it.  No request makes the handler call
    [fetch] more than once; on an accepted request it is called exactly
    once, whatever it answers; and when that call throws, the handler
    builds no response: it completes with the same exception, which is
    left to its caller. *)
Theorem C5_fetch_once_failure_propagates (context : option Context) :
  (List.length (snd (run context)) <= 1)%nat /\
  (forall zoom column row,
     accepted Number context zoom column row ->
     snd (run context) = [callFor (tileBBox zoom column row)] /\
     (forall e, network (callFor (tileBBox zoom column row)) = Throw e ->
                fst (run context) = Throw e)).
Proof.
  split; [apply serve_log_short|].
  intros zoom column row Hacc.
  split; [apply serve_log_accepted, Hacc|].
  intros e He.
  rewrite (serve_accepted _ _ _ _ _ _ _ _ Hacc), proxy_run. cbn zeta.
  rewrite He. reflexivity.
Qed.

(** C6.  On an accepted request the one upstream call goes to
    [<service>/export] with: [bbox] the encoded form of the four
    numbers joined by commas, which decodes back to that string and
    holds no separator of the query; [bboxSR] and [imageSR] 102100;
    [size] 256,256; [format] png32, transparent; and it is issued with
    [cache: "no-store"]. *)
Theorem C6_export_request
    (context : option Context) (zoom column row : R) :
  accepted Number context zoom column row ->
  let b := tileBBox zoom column row in
  let joined := numberToString (minX b) ++ "," ++ numberToString (minY b) ++ ","
                  ++ numberToString (maxX b) ++ "," ++ numberToString (maxY b) in
  exists call,
    snd (run context) = [call] /\
    fc_url call
    = UAVSAR_SERVICE_URL env ++ "/export?bbox=" ++ encodeURIComponent joined
        ++ "&bboxSR=102100&imageSR=102100&size=256,256&format=png32&transparent=true&f=image" /\
    percentDecode (encodeURIComponent joined) = joined /\
    allChars isEncoded (encodeURIComponent joined) = true /\
    fc_cache call = "no-store" /\
    fc_headers call = [("Accept", "image/png")].
Proof.
  intros Hacc b joined.
  exists (callFor b). split; [apply serve_log_accepted, Hacc|].
  split; [apply exportUrl_spelled|].
  split; [apply percentDecode_encode|].
  split; [apply encodeURIComponent_chars|].
  split; reflexivity.
Qed.

End EndpointClaims.

(** ** The claims on the requests of the specification's scenarios *)

Lemma accepted_tile_10_100_200 :
  accepted decimalNumber tile_10_100_200 (IZR 10) (IZR 100) (IZR 200).
Proof. exists "10", "100", "200". repeat split; reflexivity. Defined.

Lemma C2_witness :
  serve decimalNumber constPrinter None (constNetwork pngResponse) missing_y
  = (Normal {| r_status := 400;
               r_headers := [("content-type", "application/json")];
               r_body := JsonBody {| error := "Missing tile coordinates" |} |},
     []) /\
  serve decimalNumber constPrinter None (constNetwork pngResponse) invalid_x
  = (Normal {| r_status := 400;
               r_headers := [("content-type", "application/json")];
               r_body := JsonBody {| error := "Invalid tile coordinates" |} |},
     []).
Proof.
  split.
  - apply (proj1 (C2_bad_coordinates_rejected decimalNumber constPrinter None
                    (constNetwork pngResponse) missing_y)).
    right. right. reflexivity.
  - apply (proj2 (C2_bad_coordinates_rejected decimalNumber constPrinter None
                    (constNetwork pngResponse) invalid_x) "10" "abc" "200");
      try reflexivity.
    right. left. reflexivity.
Defined.

(** C3, where the code departs from it.  An upstream that answers
    204 No Content has no body, so the handler takes the failure branch
    and asks [NextResponse.json] for a response with the status 204 and
    a JSON body; the platform refuses a body under that status, and the
    request z=10, x=100, y=200 ends in a TypeError after its one call of
    [fetch], not in a response. *)
Theorem C3_no_content_upstream_throws :
  upstreamFailed noContentResponse = true /\
  serve decimalNumber constPrinter None (constNetwork noContentResponse)
    tile_10_100_200
  = (Throw "TypeError",
     [exportCall constPrinter None (tileBBox (IZR 10) (IZR 100) (IZR 200))]) /\
  ~ (exists response,
       fst (serve decimalNumber constPrinter None (constNetwork noContentResponse)
              tile_10_100_200) = Normal response).
Proof.
  assert (Hrun : serve decimalNumber constPrinter None
                   (constNetwork noContentResponse) tile_10_100_200
                 = (Throw "TypeError",
                    [exportCall constPrinter None
                       (tileBBox (IZR 10) (IZR 100) (IZR 200))])).
  { rewrite (serve_accepted _ _ _ _ _ _ _ _ accepted_tile_10_100_200), proxy_run.
    reflexivity. }
  split; [reflexivity|]. split; [exact Hrun|].
  intros [response H]. rewrite Hrun in H. discriminate.
Qed.

Lemma C4_witness :
  fst (serve decimalNumber constPrinter None (constNetwork pngResponse)
         tile_10_100_200)
  = Normal {| r_status := 200;
              r_headers := [("Content-Type", "image/png");
                            ("Cache-Control", "public, max-age=600")];
              r_body := StreamBody (Some pngBytes) |}.
Proof.
  apply (C4_upstream_success_relayed decimalNumber constPrinter None
           (constNetwork pngResponse) tile_10_100_200
           (IZR 10) (IZR 100) (IZR 200) pngResponse pngBytes).
  - exact accepted_tile_10_100_200.
  - reflexivity.
  - simpl. lia.
  - reflexivity.
Defined.

Lemma C5_witness :
  snd (serve decimalNumber constPrinter None downNetwork tile_10_100_200)
  = [exportCall constPrinter None (tileBBox (IZR 10) (IZR 100) (IZR 200))] /\
  fst (serve decimalNumber constPrinter None downNetwork tile_10_100_200)
  = Throw "fetch failed".
Proof.
  destruct (proj2 (C5_fetch_once_failure_propagates decimalNumber constPrinter
                     None downNetwork tile_10_100_200)
              (IZR 10) (IZR 100) (IZR 200) accepted_tile_10_100_200)
    as [Hlog Hthrow].
  split; [exact Hlog|]. apply Hthrow. reflexivity.
Defined.

(** C5 as the specification words it fails: with the network down, the
    request z=10, x=100, y=200 ends in the exception of [fetch], not in a
    response of any status. *)
Lemma C5_counterexample :
  downNetwork (exportCall constPrinter None (tileBBox (IZR 10) (IZR 100) (IZR 200)))
  = Throw "fetch failed" /\
  fst (serve decimalNumber constPrinter None downNetwork tile_10_100_200)
  = Throw "fetch failed" /\
  ~ (exists response,
       fst (serve decimalNumber constPrinter None downNetwork tile_10_100_200)
       = Normal response).
Proof.
  assert (Hrun : fst (serve decimalNumber constPrinter None downNetwork
                        tile_10_100_200) = Throw "fetch failed").
  { rewrite (serve_accepted _ _ _ _ _ _ _ _ accepted_tile_10_100_200), proxy_run.
    reflexivity. }
  split; [reflexivity|]. split; [exact Hrun|].
  intros [response H]. rewrite Hrun in H. discriminate.
Qed.

Lemma C6_witness :
  exists call,
    snd (serve decimalNumber constPrinter None (constNetwork pngResponse)
           tile_10_100_200) = [call] /\
    fc_url call
    = DEFAULT_SERVICE_URL ++ "/export?bbox=" ++ "0%2C0%2C0%2C0"
        ++ "&bboxSR=102100&imageSR=102100&size=256,256&format=png32&transparent=true&f=image" /\
    percentDecode "0%2C0%2C0%2C0" = "0,0,0,0" /\
    allChars isEncoded "0%2C0%2C0%2C0" = true /\
    fc_cache call = "no-store" /\
    fc_headers call = [("Accept", "image/png")].
Proof.
  exact (C6_export_request decimalNumber constPrinter None
           (constNetwork pngResponse) tile_10_100_200
           (IZR 10) (IZR 100) (IZR 200) accepted_tile_10_100_200).
Defined.

(** * Further properties of the tile endpoint *)

Local Open Scope R_scope.

Lemma clampedLat_mono (a b : R) : a <= b -> clampedLat a <= clampedLat b.
Proof.
  intros H. unfold clampedLat, Rmax, Rmin. repeat destruct Rle_dec; lra.
Qed.

Lemma mercator_y_clamp_mono (lon lon' a b : R) :
  clampedLat a <= clampedLat b ->
  pt_y (lonLatToWebMercator lon a) <= pt_y (lonLatToWebMercator lon' b).
Proof.
  intros Hc. unfold lonLatToWebMercator; cbn [pt_y].
  pose proof (mercatorAngle_range a) as [Ha0 Ha1].
  pose proof (mercatorAngle_range b) as [Hb0 Hb1].
  pose proof PI_RGT_0 as Hpi.
  assert (Hang : mercatorAngle a <= mercatorAngle b).
  { unfold mercatorAngle. nra. }
  assert (Hta : 0 < tan (mercatorAngle a)) by (apply tan_gt_0; assumption).
  assert (Hln : ln (tan (mercatorAngle a)) <= ln (tan (mercatorAngle b))).
  { destruct Hang as [Hlt|Heq]; [|rewrite Heq; lra].
    left. apply ln_increasing; [exact Hta|].
    apply tan_increasing; lra. }
  unfold EARTH_RADIUS. nra.
Qed.

(** X9.  The projected ordinate never decreases when the latitude grows,
    and whatever the latitude it stays between the ordinates of -89.9999
    and 89.9999 degrees, where the clamp holds it. *)
Theorem X9_mercator_y_monotone_bounded (lon lat1 lat2 : R) :
  lat1 <= lat2 ->
  pt_y (lonLatToWebMercator lon (-89.9999)) <= pt_y (lonLatToWebMercator lon lat1) /\
  pt_y (lonLatToWebMercator lon lat1) <= pt_y (lonLatToWebMercator lon lat2) /\
  pt_y (lonLatToWebMercator lon lat2) <= pt_y (lonLatToWebMercator lon 89.9999).
Proof.
  intros H.
  pose proof (clampedLat_range lat1) as [Hl1 Hh1].
  pose proof (clampedLat_range lat2) as [Hl2 Hh2].
  repeat split; apply mercator_y_clamp_mono.
  - rewrite (clampedLat_id (-89.9999)) by lra. exact Hl1.
  - apply clampedLat_mono, H.
  - rewrite (clampedLat_id 89.9999) by lra. exact Hh2.
Qed.

Lemma X9_witness :
  pt_y (lonLatToWebMercator 0 (-89.9999)) <= pt_y (lonLatToWebMercator 0 30) /\
  pt_y (lonLatToWebMercator 0 30) <= pt_y (lonLatToWebMercator 0 100) /\
  pt_y (lonLatToWebMercator 0 100) <= pt_y (lonLatToWebMercator 0 89.9999).
Proof. apply (X9_mercator_y_monotone_bounded 0 30 100). lra. Defined.

(** X30.  The clamp of [lonLatToWebMercator] on doubles: NaN stays
    NaN; every other latitude, the infinities included, comes out between
    -89.9999 and 89.9999; and a latitude between these bounds comes out
    as it is. *)
Theorem X30_clampedLat_double (lat : float) :
  (is_nan lat = true -> is_nan (Double.clampedLat lat) = true) /\
  (is_nan lat = false ->
     (-89.9999 <=? Double.clampedLat lat)%float = true /\
     (Double.clampedLat lat <=? 89.9999)%float = true) /\
  ((-89.9999 <=? lat)%float = true -> (lat <=? 89.9999)%float = true ->
     Double.clampedLat lat = lat).
Proof.
  rewrite clampedLat_words. unfold DoubleSpec.clamp.
  destruct (Prim2SF lat) as [s|s| |s m e] eqn:E.
  - apply of_SF in E. subst lat.
    destruct s; repeat split; intros; try reflexivity; discriminate.
  - apply of_SF in E. subst lat.
    destruct s; repeat split; intros; try reflexivity; discriminate.
  - apply of_SF in E. subst lat.
    repeat split; intros; try reflexivity; discriminate.
  - pose proof (is_nan_finite _ _ _ _ E) as Hn.
    split; [intros H; congruence|].
    destruct (lat <? -89.9999)%float eqn:A; [|destruct (89.9999 <? lat)%float eqn:B].
    + split; [intros _; split; reflexivity|].
      intros H _. apply leb_ltb in H. congruence.
    + split; [intros _; split; reflexivity|].
      intros _ H. apply leb_ltb in H. congruence.
    + split; [|reflexivity]. intros _. split.
      * eapply leb_of_not_ltb_finite; [reflexivity|exact E|exact A].
      * eapply leb_of_not_ltb_finite; [exact E|reflexivity|exact B].
Qed.

Local Open Scope float_scope.

Lemma widthStep_iter (p : float) (n : positive) :
  let st := Pos.iter (widthStep p) (true, 0%Z) n in
  snd st = Z.pos n /\
  (fst st = true ->
   forall c, (0 <= c < Z.pos n)%Z ->
     (edgeX p (doubleOfZ c) <? edgeX p (doubleOfZ c + 1)) = true).
Proof.
  induction n as [|n IH] using Pos.peano_ind.
  - change (Pos.iter (widthStep p) (true, 0%Z) 1) with (widthStep p (true, 0%Z)).
    unfold widthStep. cbn [fst snd andb]. split; [reflexivity|].
    intros H c Hc. assert (c = 0%Z) by lia. subst c. exact H.
  - rewrite Pos.iter_succ. cbv zeta in IH.
    destruct (Pos.iter (widthStep p) (true, 0%Z) n) as [ok c0].
    cbn [fst snd] in *. destruct IH as [Hc0 IH]. subst c0.
    unfold widthStep. cbn [fst snd]. split; [lia|].
    intros H c Hc. apply andb_true_iff in H. destruct H as [Hok Hn].
    destruct (Z.eq_dec c (Z.pos n)) as [->|Hne]; [exact Hn|].
    apply IH; [exact Hok|lia].
Qed.

Lemma zoomsUpTo_each (n k : nat) :
  zoomsUpTo n = true -> (k <= n)%nat -> columnsSeparate (Z.of_nat k) = true.
Proof.
  induction n as [|n IH]; intros H Hk.
  - assert (k = 0%nat) by lia. subst k. exact H.
  - cbn [zoomsUpTo] in H. apply andb_true_iff in H. destruct H as [Hn Hrest].
    destruct (Nat.eq_dec k (S n)) as [->|Hne]; [exact Hn|].
    apply IH; [exact Hrest|lia].
Qed.

Lemma zooms_0_to_18 : zoomsUpTo 18 = true.
Proof. vm_compute. reflexivity. Qed.

(** X31.  On doubles, when the engine's [2 ** zoom] is the power of two
    itself: at every zoom from 0 to 18 every tile in range has its west
    edge strictly left of its east edge, the west edge of column 0 is
    -20037508.342789244 and the east edge of the last column is
    20037508.342789244, the same two doubles at every zoom. *)
Theorem X31_tiles_keep_width_on_doubles
    (Math_pow : float -> float -> float)
    (Math_exp Math_atan Math_tan Math_log : float -> float)
    (zoom column : Z) (row : float) :
  (0 <= zoom <= 18)%Z ->
  (0 <= column < 2 ^ zoom)%Z ->
  Math_pow 2 (doubleOfZ zoom) = doubleOfZ (2 ^ zoom) ->
  let box := Double.tileBBox Math_pow Math_exp Math_atan Math_tan Math_log
               (doubleOfZ zoom) in
  (Double.minX (box (doubleOfZ column) row)
   <? Double.maxX (box (doubleOfZ column) row)) = true /\
  Double.minX (box 0 row) = -20037508.342789244 /\
  Double.maxX (box (doubleOfZ (2 ^ zoom - 1)) row) = 20037508.342789244.
Proof.
  intros Hz Hc Hpow box. subst box.
  unfold Double.tileBBox, Double.lonLatToWebMercator, Double.tile2lon.
  cbn [Double.minX Double.maxX Double.pt_x]. rewrite Hpow.
  pose proof (zoomsUpTo_each 18 (Z.to_nat zoom) zooms_0_to_18 ltac:(lia)) as H.
  rewrite Z2Nat.id in H by lia. unfold columnsSeparate in H. cbv zeta in H.
  apply andb_true_iff in H. destruct H as [H Heast].
  apply andb_true_iff in H. destruct H as [Hiter Hwest].
  apply FloatAxioms.Leibniz.eqb_spec in Heast, Hwest.
  split; [|split; [exact Hwest|exact Heast]].
  pose proof (widthStep_iter (doubleOfZ (2 ^ zoom)) (Z.to_pos (2 ^ zoom))) as [_ Hall].
  apply (Hall Hiter column). rewrite Z2Pos.id by lia. exact Hc.
Qed.

Lemma X31_witness :
  let box := Double.tileBBox powerOfTwo unusedMath unusedMath unusedMath unusedMath
               (doubleOfZ 13) in
  (Double.minX (box (doubleOfZ 1901) 3393)
   <? Double.maxX (box (doubleOfZ 1901) 3393)) = true /\
  Double.minX (box 0 3393) = -20037508.342789244 /\
  Double.maxX (box (doubleOfZ (2 ^ 13 - 1)) 3393) = 20037508.342789244.
Proof.
  apply (X31_tiles_keep_width_on_doubles powerOfTwo unusedMath unusedMath
           unusedMath unusedMath 13 1901 3393); [lia | lia | reflexivity].
Defined.

Local Close Scope float_scope.

Local Open Scope string_scope.

Lemma encodeURIComponent_app (s t : string) :
  encodeURIComponent (s ++ t) = encodeURIComponent s ++ encodeURIComponent t.
Proof.
  induction s as [|c rest IH]; [reflexivity|].
  cbn [append encodeURIComponent]. rewrite IH.
  destruct (isUnreserved c); [reflexivity|].
  now rewrite string_app_assoc.
Qed.

Lemma encodeURIComponent_unreserved (s : string) :
  allChars isUnreserved s = true -> encodeURIComponent s = s.
Proof.
  induction s as [|c rest IH]; [reflexivity|].
  cbn [allChars encodeURIComponent]. intros H.
  apply andb_true_iff in H. destruct H as [Hc Hrest].
  rewrite Hc, IH by exact Hrest. reflexivity.
Qed.

Section EndpointExtras.

Variable Number : string -> JsNumber.
Variable numberToString : R -> string.
Variable env : option string.
Variable network : FetchCall -> Completion UpstreamResponse.

Local Abbreviation run := (serve Number numberToString env network).
Local Abbreviation callFor := (exportCall numberToString env).

(** X3.  When the handler throws.  A request ends in an exception
    exactly when its coordinates were accepted and either the export call
    itself failed, with that exception, or the upstream's answer took the
    failure branch with a status that [NextResponse.json] refuses (a
    RangeError outside 200..599, a TypeError on 204, 205 and 304; a status
    0 is replaced by 502 first).  A failing [upstream.text()] never makes
    the handler throw. *)
Theorem X3_when_GET_throws (context : option Context) (e : JsError) :
  fst (run context) = Throw e <->
  exists zoom column row,
    accepted Number context zoom column row /\
    (network (callFor (tileBBox zoom column row)) = Throw e \/
     exists up,
       network (callFor (tileBBox zoom column row)) = Normal up /\
       upstreamFailed up = true /\
       initError (errorStatus up) = Some e).
Proof.
  split.
  - unfold serve, GET. intros H.
    destruct (p_z (paramsOf context)) as [z|] eqn:Ez; [|discriminate].
    destruct (p_x (paramsOf context)) as [x|] eqn:Ex; [|discriminate].
    destruct (p_y (paramsOf context)) as [y|] eqn:Ey; [|discriminate].
    destruct (Number z) as [zoom| | |] eqn:Nz; try discriminate.
    destruct (Number x) as [column| | |] eqn:Nx; try discriminate.
    destruct (Number y) as [row| | |] eqn:Ny; try discriminate.
    exists zoom, column, row. split.
    + exists z, x, y. repeat split; try assumption.
      destruct (paramsOf context); cbn in *; congruence.
    + rewrite proxy_run in H. cbn zeta in H.
      destruct (network _) as [up|e']; [|left; cbn in H; congruence].
      right. exists up. split; [reflexivity|].
      destruct (upstreamFailed up); [|discriminate]. split; [reflexivity|].
      unfold NextResponse_json in H.
      destruct (initError (errorStatus up)) as [e'|]; [|discriminate].
      cbn in H. congruence.
  - intros (zoom & column & row & Hacc & Hcase).
    rewrite (serve_accepted _ _ _ _ _ _ _ _ Hacc), proxy_run. cbn zeta.
    destruct Hcase as [Hnet|(up & Hnet & Hfail & Hinit)]; rewrite Hnet.
    + reflexivity.
    + rewrite Hfail. now rewrite (NextResponse_json_refuses _ _ _ _ Hinit).
Qed.

(** X29.  The failure branch where the platform lets it answer: when the
    upstream answers outside 200..299 or without a body, under a status
    that is 0 or lies in 200..599 and is not 204, 205 or 304, the handler
    answers with the upstream's status, 502 if that status is 0, and a
    JSON body whose [error] is the upstream's text when there is one, and
    "Upstream error <status>" otherwise. *)
Theorem X29_upstream_failure_relayed
    (context : option Context) (zoom column row : R) (up : UpstreamResponse) :
  accepted Number context zoom column row ->
  network (callFor (tileBBox zoom column row)) = Normal up ->
  ((up_status up < 200 \/ 299 < up_status up)%Z \/ up_body up = None) ->
  (up_status up = 0 \/ 200 <= up_status up <= 599)%Z ->
  up_status up <> 204%Z -> up_status up <> 205%Z -> up_status up <> 304%Z ->
  fst (run context)
  = Normal {| r_status := if (up_status up =? 0)%Z then 502%Z else up_status up;
              r_headers := [("content-type", "application/json")];
              r_body := JsonBody {| error :=
                match up_text up with
                | Normal (String c t) => String c t
                | Normal EmptyString | Throw _ =>
                    "Upstream error " ++ intToString (up_status up)
                end |} |}.
Proof.
  intros Hacc Hnet Hfail Hrange H204 H205 H304.
  rewrite (serve_accepted _ _ _ _ _ _ _ _ Hacc), proxy_run. cbn zeta.
  rewrite Hnet. apply upstreamFailed_iff in Hfail. rewrite Hfail.
  rewrite NextResponse_json_accepts.
  - cbn [fst]. unfold errorStatus, errorMessage.
    destruct (up_text up) as [[|c t]|e]; reflexivity.
  - apply initError_none. unfold errorStatus.
    destruct (Z.eqb_spec (up_status up) 0); lia.
Qed.

(** X4.  Whatever the request and whatever the upstream answers, a
    response with a JSON body never has the status 0, and a response with
    a streamed body streams a body that is there, under a status in
    200..299, after exactly one call of [fetch]. *)
Theorem X4_response_is_well_formed (context : option Context) (response : Response) :
  fst (run context) = Normal response ->
  match r_body response with
  | JsonBody _ =>
      r_status response <> 0%Z /\
      r_headers response = [("content-type", "application/json")]
  | StreamBody stream =>
      (exists bytes, stream = Some bytes) /\
      (200 <= r_status response <= 299)%Z /\
      List.length (snd (run context)) = 1%nat
  end.
Proof.
  unfold serve, GET. intros H.
  assert (Hbad : forall msg,
            fst (NextResponse_json {| error := msg |} 400%Z []) = Normal response ->
            match r_body response with
            | JsonBody _ =>
                r_status response <> 0%Z /\
                r_headers response = [("content-type", "application/json")]
            | StreamBody stream =>
                (exists bytes, stream = Some bytes) /\
                (200 <= r_status response <= 299)%Z /\
                List.length (snd (GET Number numberToString env network context [])) = 1%nat
            end).
  { intros msg E. cbn in E. injection E as <-. cbn. split; [discriminate|reflexivity]. }
  unfold GET in Hbad.
  destruct (p_z (paramsOf context)) as [z|]; [|exact (Hbad _ H)].
  destruct (p_x (paramsOf context)) as [x|]; [|exact (Hbad _ H)].
  destruct (p_y (paramsOf context)) as [y|]; [|exact (Hbad _ H)].
  destruct (Number z) as [zoom| | |]; try exact (Hbad _ H).
  destruct (Number x) as [column| | |]; try exact (Hbad _ H).
  destruct (Number y) as [row| | |]; try exact (Hbad _ H).
  clear Hbad. rewrite proxy_run in *. cbn zeta in *.
  destruct (network _) as [up|e']; [|discriminate].
  destruct (upstreamFailed up) eqn:Ef.
  - unfold NextResponse_json in H.
    destruct (initError (errorStatus up)); [discriminate|].
    cbn in H. injection H as <-. cbn.
    split; [|reflexivity]. unfold errorStatus.
    destruct (Z.eqb_spec (up_status up) 0); [discriminate|assumption].
  - cbn in H; injection H as <-; cbn.
    assert (Hnf : ~ (((up_status up < 200)%Z \/ (299 < up_status up)%Z)
                     \/ up_body up = None)).
    { intros Hc. apply upstreamFailed_iff in Hc. congruence. }
    repeat split.
    + destruct (up_body up) as [bytes|]; [now exists bytes|].
      exfalso. apply Hnf. now right.
    + destruct (Z_lt_dec (up_status up) 200); [|lia]. exfalso. apply Hnf. lia.
    + destruct (Z_lt_dec 299 (up_status up)); [|lia]. exfalso. apply Hnf. lia.
Qed.

(** X10.  When the four numbers print with unreserved characters only
    (digits, a minus sign, a point, an exponent letter), the [bbox]
    parameter goes on the wire as the four numbers separated by [%2C]. *)
Theorem X10_bbox_on_the_wire (b : BBox) :
  allChars isUnreserved (numberToString (minX b)) = true ->
  allChars isUnreserved (numberToString (minY b)) = true ->
  allChars isUnreserved (numberToString (maxX b)) = true ->
  allChars isUnreserved (numberToString (maxY b)) = true ->
  encodeURIComponent (bboxString numberToString b)
  = numberToString (minX b) ++ "%2C" ++ numberToString (minY b) ++ "%2C"
      ++ numberToString (maxX b) ++ "%2C" ++ numberToString (maxY b).
Proof.
  intros H1 H2 H3 H4. rewrite bboxString_spelled.
  rewrite !encodeURIComponent_app.
  rewrite (encodeURIComponent_unreserved _ H1), (encodeURIComponent_unreserved _ H2),
    (encodeURIComponent_unreserved _ H3), (encodeURIComponent_unreserved _ H4).
  reflexivity.
Qed.

End EndpointExtras.

Lemma X29_witness :
  fst (serve decimalNumber constPrinter None (constNetwork notFoundResponse)
         tile_10_100_200)
  = Normal {| r_status := 404;
              r_headers := [("content-type", "application/json")];
              r_body := JsonBody {| error := "tile not found" |} |}.
Proof.
  apply (X29_upstream_failure_relayed decimalNumber constPrinter None
           (constNetwork notFoundResponse) tile_10_100_200
           (IZR 10) (IZR 100) (IZR 200) notFoundResponse).
  - exact accepted_tile_10_100_200.
  - reflexivity.
  - left. right. simpl. lia.
  - right. simpl. lia.
  - discriminate.
  - discriminate.
  - discriminate.
Defined.

Lemma X4_witness :
  (exists bytes, Some pngBytes = Some bytes) /\
  (200 <= 200 <= 299)%Z /\
  List.length (snd (serve decimalNumber constPrinter None
                      (constNetwork pngResponse) tile_10_100_200)) = 1%nat.
Proof.
  apply (X4_response_is_well_formed decimalNumber constPrinter None
           (constNetwork pngResponse) tile_10_100_200
           {| r_status := 200;
              r_headers := [("Content-Type", "image/png");
                            ("Cache-Control", "public, max-age=600")];
              r_body := StreamBody (Some pngBytes) |}).
  rewrite (serve_accepted _ _ _ _ _ _ _ _ accepted_tile_10_100_200), proxy_run.
  reflexivity.
Defined.

Lemma X10_witness :
  encodeURIComponent (bboxString constPrinter (tileBBox 0 0 0))
  = "0" ++ "%2C" ++ "0" ++ "%2C" ++ "0" ++ "%2C" ++ "0".
Proof.
  apply (X10_bbox_on_the_wire constPrinter (tileBBox 0 0 0)); reflexivity.
Defined.

(** * Properties of the map component *)

Local Close Scope string_scope.
Local Open Scope R_scope.

(** ** Great-circle distance *)

(** X12.  [haversine] does not depend on the order of its two points,
    and the distance of a point to itself is 0. *)
Theorem X12_haversine_symmetric (p q : R * R) :
  haversine p q = haversine q p /\ haversine p p = 0.
Proof.
  destruct p as [lat1 lon1], q as [lat2 lon2]. unfold haversine. split.
  - assert (Ha : haversine_a (lat1, lon1) (lat2, lon2)
                 = haversine_a (lat2, lon2) (lat1, lon1)).
    { unfold haversine_a.
      replace (toRad (lat1 - lat2) / 2) with (- (toRad (lat2 - lat1) / 2))
        by (unfold toRad; field).
      replace (toRad (lon1 - lon2) / 2) with (- (toRad (lon2 - lon1) / 2))
        by (unfold toRad; field).
      rewrite !sin_neg. ring. }
    rewrite Ha. reflexivity.
  - assert (Ha : haversine_a (lat1, lon1) (lat1, lon1) = 0).
    { unfold haversine_a, toRad.
      replace ((lat1 - lat1) * PI / 180 / 2) with 0 by field.
      replace ((lon1 - lon1) * PI / 180 / 2) with 0 by field.
      rewrite sin_0. ring. }
    rewrite Ha, Rminus_0_r, sqrt_0, sqrt_1. unfold Math_atan2.
    destruct (Rlt_dec 0 1) as [_|]; [|lra].
    replace (0 / 1) with 0 by field. rewrite atan_0. ring.
Qed.

(** ** The modes of the route options *)

Lemma beats_irrefl (o : RouteOption) : ~ beats o o.
Proof. unfold beats. destruct (durationSec o); lra. Qed.

Lemma beats_trans (a b c : RouteOption) : beats a b -> beats b c -> beats a c.
Proof.
  unfold beats.
  destruct (durationSec a), (durationSec b), (durationSec c); try tauto; lra.
Qed.

Lemma beats_through (a b c : RouteOption) : beats a b -> ~ beats c b -> beats a c.
Proof.
  unfold beats.
  destruct (durationSec a), (durationSec b), (durationSec c); try tauto; lra.
Qed.

Lemma betterIndex_spec (arr : list RouteOption) (cb : nat) (best o : RouteOption) (i : nat) :
  nth_error arr cb = Some best ->
  exists next, betterIndex arr cb o i = Some next /\
    ((beats o best /\ next = i) \/ (~ beats o best /\ next = cb)).
Proof.
  intros Hb. unfold betterIndex, beats. rewrite Hb.
  destruct (durationSec o) as [d|], (durationSec best) as [bd|];
    try destruct Rlt_dec; eexists; split; try reflexivity; tauto.
Qed.

Lemma reduceFrom_leads (arr : list RouteOption) :
  forall rest pre k b,
    arr = pre ++ rest -> List.length pre = k -> leads arr k b ->
    exists b', reduceFrom arr rest k b = Some b' /\ leads arr (List.length arr) b'.
Proof.
  induction rest as [|o rest IH]; intros pre k b Harr Hk Hl.
  - exists b. split; [reflexivity|]. rewrite Harr, app_nil_r, Hk. rewrite Harr, app_nil_r in Hl. exact Hl.
  - destruct Hl as (best & Hb & Hmin & Hfirst).
    assert (Hk_o : nth_error arr k = Some o).
    { rewrite Harr, nth_error_app2 by lia. rewrite Hk, Nat.sub_diag. reflexivity. }
    destruct (betterIndex_spec arr b best o k Hb) as (next & Hnext & Hcase).
    cbn [reduceFrom]. rewrite Hnext.
    apply (IH (pre ++ [o]) (S k) next).
    + rewrite <- app_assoc. exact Harr.
    + rewrite length_app. cbn. lia.
    + destruct Hcase as [[Hbeat ->]|[Hnb ->]].
      * exists o. split; [exact Hk_o|]. split.
        -- intros j oj Hj Hoj. destruct (Nat.eq_dec j k) as [->|Hne].
           ++ rewrite Hk_o in Hoj. injection Hoj as <-. apply beats_irrefl.
           ++ intros Hc. apply (Hmin j oj); [lia|exact Hoj|].
              eapply beats_trans; eassumption.
        -- intros j oj Hj Hoj. apply (beats_through o best oj Hbeat).
           apply (Hmin j oj); [lia|exact Hoj].
      * exists best. split; [exact Hb|]. split; [|exact Hfirst].
        intros j oj Hj Hoj. destruct (Nat.eq_dec j k) as [->|Hne].
        -- rewrite Hk_o in Hoj. injection Hoj as <-. exact Hnb.
        -- apply (Hmin j oj); [lia|exact Hoj].
Qed.

Lemma bestIndex_leads (o : RouteOption) (rest : list RouteOption) :
  exists b, bestIndex (o :: rest) = Some b /\
            leads (o :: rest) (List.length (o :: rest)) b.
Proof.
  apply (reduceFrom_leads (o :: rest) (o :: rest) [] 0%nat 0%nat); try reflexivity.
  exists o. split; [reflexivity|]. split; intros j oj Hj; lia.
Qed.

Lemma nth_error_mapFrom {A B : Type} (f : A -> nat -> B) (l : list A) :
  forall k i, nth_error (mapFrom f l k) i
              = option_map (fun a => f a (k + i)%nat) (nth_error l i).
Proof.
  induction l as [|a l IH]; intros k i.
  - destruct i; reflexivity.
  - destruct i as [|i]; cbn.
    + now rewrite Nat.add_0_r.
    + rewrite IH. now rewrite Nat.add_succ_r.
Qed.

Lemma length_mapFrom {A B : Type} (f : A -> nat -> B) (l : list A) :
  forall k, List.length (mapFrom f l k) = List.length l.
Proof. induction l as [|a l IH]; intros k; cbn; [reflexivity|now rewrite IH]. Qed.

Lemma map_mapFrom {A B C : Type} (g : B -> C) (f : A -> nat -> B) (l : list A) :
  forall k, map g (mapFrom f l k) = mapFrom (fun a i => g (f a i)) l k.
Proof. induction l as [|a l IH]; intros k; cbn; [reflexivity|now rewrite IH]. Qed.

Lemma mapFrom_const {A B : Type} (g : A -> B) (l : list A) :
  forall k, mapFrom (fun a _ => g a) l k = map g l.
Proof. induction l as [|a l IH]; intros k; cbn; [reflexivity|now rewrite IH]. Qed.

Lemma mapFrom_mapFrom {A B C : Type} (g : B -> nat -> C) (f : A -> nat -> B) (l : list A) :
  forall k, mapFrom g (mapFrom f l k) k = mapFrom (fun a i => g (f a i) i) l k.
Proof. induction l as [|a l IH]; intros k; cbn; [reflexivity|now rewrite IH]. Qed.

Lemma reduceFrom_keys (arr arr' : list RouteOption) :
  Forall2 sameKey arr arr' ->
  forall rest rest' k b,
    Forall2 sameKey rest rest' ->
    reduceFrom arr rest k b = reduceFrom arr' rest' k b.
Proof.
  intros Harr. induction rest as [|o rest IH]; intros rest' k b Hrest.
  - inversion Hrest. reflexivity.
  - inversion Hrest as [|? o' ? rest'' [Hd Hc] Hrest']; subst. cbn [reduceFrom].
    assert (Hb : betterIndex arr b o k = betterIndex arr' b o' k).
    { unfold betterIndex.
      assert (Hn : match nth_error arr b, nth_error arr' b with
                   | Some x, Some x' => sameKey x x'
                   | None, None => True
                   | _, _ => False
                   end).
      { clear -Harr. revert b.
        induction Harr as [|x x' l l' Hxx Hll IHl]; intros [|b];
          cbn [nth_error]; try exact I; try exact Hxx. apply IHl. }
      destruct (nth_error arr b) as [x|], (nth_error arr' b) as [x'|];
        try contradiction; [|reflexivity].
      destruct Hn as [Hd' Hc']. rewrite Hd, Hc, Hd', Hc'. reflexivity. }
    rewrite Hb. destruct (betterIndex arr' b o' k); [|reflexivity].
    apply IH, Hrest'.
Qed.

Lemma sameKey_mapFrom (f : nat -> RouteMode) (l : list RouteOption) :
  forall k, Forall2 sameKey (mapFrom (fun o i => withMode (f i) o) l k) l.
Proof.
  induction l as [|o l IH]; intros k; cbn; constructor.
  - split; reflexivity.
  - apply IH.
Qed.

Lemma bestIndex_modes (f : nat -> RouteMode) (l : list RouteOption) :
  bestIndex (mapFrom (fun o i => withMode (f i) o) l 0) = bestIndex l.
Proof.
  unfold bestIndex. apply reduceFrom_keys; apply sameKey_mapFrom.
Qed.

(** What [assignRouteModes] returns on a list that is not empty. *)
Lemma assignRouteModes_cons (o : RouteOption) (rest : list RouteOption) :
  exists b,
    bestIndex (o :: rest) = Some b /\
    leads (o :: rest) (List.length (o :: rest)) b /\
    assignRouteModes (o :: rest)
    = Some (mapFrom (fun opt index =>
                       withMode (if Nat.eqb index b then fast else safe) opt)
                    (o :: rest) 0).
Proof.
  destruct (bestIndex_leads o rest) as (b & Hb & Hl).
  exists b. split; [exact Hb|]. split; [exact Hl|].
  unfold assignRouteModes. rewrite Hb. reflexivity.
Qed.

(** X16.  [assignRouteModes] never fails on an index out of range, and
    it returns the options in the same number and order with every field
    but [mode] unchanged. *)
Theorem X16_assignRouteModes_keeps_options (options : list RouteOption) :
  exists out,
    assignRouteModes options = Some out /\
    List.length out = List.length options /\
    map (withMode safe) out = map (withMode safe) options.
Proof.
  destruct options as [|o rest].
  - exists []. repeat split.
  - destruct (assignRouteModes_cons o rest) as (b & _ & _ & Hout).
    eexists. split; [exact Hout|]. split; [apply length_mapFrom|].
    rewrite map_mapFrom. cbn [withMode shelter crowDistance osrmDistance durationSec geometry].
    apply (mapFrom_const (withMode safe)).
Qed.

(** X17.  On a list that is not empty [assignRouteModes] marks exactly
    one option "fast" and every other one "safe". *)
Theorem X17_assignRouteModes_one_fast (options : list RouteOption) :
  options <> [] ->
  exists out b,
    assignRouteModes options = Some out /\
    (b < List.length out)%nat /\
    forall i o, nth_error out i = Some o -> (mode o = fast <-> i = b).
Proof.
  intros Hne. destruct options as [|o rest]; [contradiction|].
  destruct (assignRouteModes_cons o rest) as (b & _ & (best & Hb & _) & Hout).
  eexists. exists b. split; [exact Hout|]. split.
  - rewrite length_mapFrom. apply nth_error_Some. rewrite Hb. discriminate.
  - intros i oi Hi. rewrite nth_error_mapFrom in Hi.
    destruct (nth_error (o :: rest) i) as [x|]; [|discriminate].
    cbn in Hi. injection Hi as <-. cbn [mode withMode].
    destruct (Nat.eqb_spec i b); split; intros; try congruence; try discriminate.
Qed.

(** X18.  The option marked "fast" is the best one: if any option has a
    duration, the fast one has the least duration; if none has, the fast
    one has the least crow distance; and every option before it in the
    list is strictly worse, so that ties go to the first. *)
Theorem X18_assignRouteModes_fast_is_best (options : list RouteOption) :
  options <> [] ->
  exists out b f,
    assignRouteModes options = Some out /\
    nth_error out b = Some f /\ mode f = fast /\
    (forall o d, In o options -> durationSec o = Some d ->
                 exists df, durationSec f = Some df /\ df <= d) /\
    ((forall o, In o options -> durationSec o = None) ->
     forall o, In o options -> crowDistance f <= crowDistance o) /\
    (forall j o, (j < b)%nat -> nth_error options j = Some o -> beats f o).
Proof.
  intros Hne. destruct options as [|o0 rest]; [contradiction|].
  destruct (assignRouteModes_cons o0 rest)
    as (b & _ & (best & Hb & Hmin & Hfirst) & Hout).
  set (l := o0 :: rest) in *.
  eexists. exists b, (withMode fast best).
  split; [exact Hout|]. split.
  { rewrite nth_error_mapFrom, Hb. cbn. now rewrite Nat.eqb_refl. }
  split; [reflexivity|].
  assert (Hall : forall o, In o l -> ~ beats o best).
  { intros o Ho. apply In_nth_error in Ho. destruct Ho as [j Hj].
    apply (Hmin j o); [|exact Hj]. apply nth_error_Some. rewrite Hj. discriminate. }
  cbn [durationSec crowDistance withMode]. repeat split.
  - intros o d Ho Hd. specialize (Hall o Ho). unfold beats in Hall. rewrite Hd in Hall.
    destruct (durationSec best) as [bd|]; [|tauto]. exists bd. split; [reflexivity|lra].
  - intros Hnone o Ho. specialize (Hall o Ho). unfold beats in Hall.
    rewrite (Hnone o Ho) in Hall.
    assert (Hbin : In best l) by (eapply nth_error_In; exact Hb).
    rewrite (Hnone best Hbin) in Hall. lra.
  - intros j o Hj Hoj. exact (Hfirst j o Hj Hoj).
Qed.

(** X19.  [assignRouteModes] does not look at the modes it is given:
    applied to its own result it returns that result. *)
Theorem X19_assignRouteModes_idempotent (options : list RouteOption) :
  exists out,
    assignRouteModes options = Some out /\ assignRouteModes out = Some out.
Proof.
  destruct options as [|o rest].
  - exists []. split; reflexivity.
  - destruct (assignRouteModes_cons o rest) as (b & Hb & _ & Hout).
    eexists. split; [exact Hout|].
    set (f := fun index => if Nat.eqb index b then fast else safe).
    change (mapFrom (fun opt index =>
                       withMode (if Nat.eqb index b then fast else safe) opt)
                    (o :: rest) 0)
      with (mapFrom (fun opt index => withMode (f index) opt) (o :: rest) 0).
    pose proof (bestIndex_modes f (o :: rest)) as Hbi. rewrite Hb in Hbi.
    remember (mapFrom (fun opt index => withMode (f index) opt) (o :: rest) 0) as out eqn:Eout.
    unfold assignRouteModes. rewrite Hbi.
    destruct out as [|o' out']; [discriminate|].
    f_equal. rewrite Eout at 1.
    rewrite (mapFrom_mapFrom
               (fun opt index => withMode (if Nat.eqb index b then fast else safe) opt)).
    symmetry. exact Eout.
Qed.

(** ** The candidates and the first route of [routeFrom] *)

Lemma insertSorted_perm (x : Candidate) (l : list Candidate) :
  Permutation (insertSorted byCrowDistance x l) (x :: l).
Proof.
  induction l as [|y l IH]; cbn; [reflexivity|].
  destruct Rlt_dec; [reflexivity|].
  rewrite IH. apply perm_swap.
Qed.

Lemma insertSorted_sorted (x : Candidate) (l : list Candidate) :
  StronglySorted crowLe l -> StronglySorted crowLe (insertSorted byCrowDistance x l).
Proof.
  induction l as [|y l IH]; intros Hs; cbn.
  - repeat constructor.
  - inversion Hs as [|? ? Hl Hy]; subst. unfold byCrowDistance at 1.
    destruct Rlt_dec as [Hlt|Hge].
    + constructor; [exact Hs|]. constructor; [unfold crowLe; lra|].
      eapply Forall_impl; [|exact Hy]. unfold crowLe. intros a Ha. lra.
    + constructor; [apply IH, Hl|].
      eapply Permutation_Forall; [symmetry; apply insertSorted_perm|].
      constructor; [unfold crowLe; lra|exact Hy].
Qed.

Lemma Array_sort_acc (l : list Candidate) :
  forall acc, StronglySorted crowLe acc ->
    let s := fold_left (fun sorted x => insertSorted byCrowDistance x sorted) l acc in
    StronglySorted crowLe s /\ Permutation s (acc ++ l).
Proof.
  induction l as [|x l IH]; intros acc Hacc; cbn.
  - split; [exact Hacc|]. now rewrite app_nil_r.
  - destruct (IH (insertSorted byCrowDistance x acc) (insertSorted_sorted x acc Hacc))
      as [Hs Hp].
    split; [exact Hs|]. eapply perm_trans; [exact Hp|].
    eapply perm_trans; [apply Permutation_app_tail, insertSorted_perm|].
    apply Permutation_middle.
Qed.

Lemma Array_sort_spec (l : list Candidate) :
  StronglySorted crowLe (Array_sort byCrowDistance l) /\
  Permutation (Array_sort byCrowDistance l) l.
Proof. apply (Array_sort_acc l []). constructor. Qed.

Lemma StronglySorted_app_le (l1 l2 : list Candidate) :
  StronglySorted crowLe (l1 ++ l2) ->
  forall a b, In a l1 -> In b l2 -> crowLe a b.
Proof.
  induction l1 as [|x l1 IH]; intros Hs a b Ha Hb; [destruct Ha|].
  cbn in Hs. inversion Hs as [|? ? Hl Hx]; subst.
  destruct Ha as [->|Ha].
  - rewrite Forall_forall in Hx. apply Hx, in_or_app. now right.
  - apply IH; assumption.
Qed.

Lemma in_firstn {A : Type} (n : nat) (l : list A) (a : A) :
  In a (firstn n l) -> In a l.
Proof.
  intros H. rewrite <- (firstn_skipn n l). apply in_or_app. now left.
Qed.

Lemma StronglySorted_firstn (n : nat) (l : list Candidate) :
  StronglySorted crowLe l -> StronglySorted crowLe (firstn n l).
Proof.
  revert n. induction l as [|x l IH]; intros n Hs.
  - rewrite firstn_nil. constructor.
  - destruct n as [|n]; [constructor|]. cbn.
    inversion Hs as [|? ? Hl Hx]; subst. constructor; [apply IH, Hl|].
    rewrite Forall_forall in *. intros a Ha. apply Hx.
    eapply in_firstn. exact Ha.
Qed.

(** X14.  Sorting by [(a, b) => a.crowDistance - b.crowDistance] and
    keeping the first three, as [routeFrom] does: when every distance is
    a number (none is NaN), the candidates kept are min(3, number of
    candidates) of them, in ascending order of distance, and no candidate
    left out is nearer than a candidate kept. *)
Theorem X14_nearest_three_kept (all : list Candidate) :
  let chosen := firstn 3 (Array_sort byCrowDistance all) in
  List.length chosen = Nat.min 3 (List.length all) /\
  StronglySorted (fun a b => cand_crow a <= cand_crow b) chosen /\
  exists others,
    Permutation all (chosen ++ others) /\
    forall c o, In c chosen -> In o others -> cand_crow c <= cand_crow o.
Proof.
  intros chosen.
  destruct (Array_sort_spec all) as [Hs Hp].
  set (sorted := Array_sort byCrowDistance all) in *.
  split.
  { subst chosen. now rewrite length_firstn, (Permutation_length Hp). }
  split.
  { apply StronglySorted_firstn, Hs. }
  exists (skipn 3 sorted). split.
  - subst chosen. rewrite firstn_skipn. symmetry. exact Hp.
  - intros c o Hc Ho. apply (StronglySorted_app_le (firstn 3 sorted) (skipn 3 sorted));
      [rewrite firstn_skipn; exact Hs | exact Hc | exact Ho].
Qed.

Lemma find_first_fast (l : list RouteOption) (b : nat) (f : RouteOption) :
  nth_error l b = Some f ->
  (forall i o, nth_error l i = Some o -> (mode o = fast <-> i = b)) ->
  hasGeometry f = true ->
  find (fun o => isFast o && hasGeometry o) l = Some f.
Proof.
  revert b. induction l as [|x l IH]; intros b Hb Hone Hg.
  - destruct b; discriminate.
  - cbn [find]. destruct b as [|b].
    + cbn in Hb. injection Hb as ->.
      assert (Hm : mode f = fast) by (apply (Hone 0%nat f); reflexivity).
      unfold isFast. rewrite Hm, Hg. reflexivity.
    + assert (Hx : mode x <> fast).
      { intros Hm. apply (Hone 0%nat x eq_refl) in Hm. discriminate. }
      unfold isFast at 1. destruct (mode x); [congruence|]. cbn [andb].
      apply (IH b); [exact Hb| |exact Hg].
      intros i o Hi. specialize (Hone (S i) o Hi). split; intros H.
      * apply Hone in H. lia.
      * apply Hone. lia.
Qed.

Lemma find_hasGeometry_some (l : list RouteOption) (o : RouteOption) :
  find hasGeometry l = Some o -> In o l /\ geometry o <> None.
Proof.
  intros H. apply find_some in H. destruct H as [Hin Hg]. split; [exact Hin|].
  unfold hasGeometry in Hg. destruct (geometry o); [discriminate|discriminate].
Qed.

Lemma find_all_false {A : Type} (p : A -> bool) (l : list A) :
  (forall x, In x l -> p x = false) -> find p l = None.
Proof.
  induction l as [|x l IH]; intros H; [reflexivity|].
  cbn. rewrite (H x (or_introl eq_refl)). apply IH. intros y Hy. apply H. now right.
Qed.

Lemma enrichAll_duration_geometry (sorted : list Candidate)
    (routes : nat -> option RouteResult) (o : RouteOption) :
  In o (enrichAll sorted routes) -> durationSec o <> None -> geometry o <> None.
Proof.
  unfold enrichAll. generalize 0%nat as k.
  induction sorted as [|c sorted IH]; intros k Hin Hd; [destruct Hin|].
  cbn in Hin. destruct Hin as [<-|Hin]; [|exact (IH _ Hin Hd)].
  unfold enrichOption in *. destruct (routes k); cbn in *; congruence.
Qed.

Lemma in_mapFrom {A B : Type} (f : A -> nat -> B) (l : list A) (y : B) :
  forall k, In y (mapFrom f l k) -> exists x i, In x l /\ y = f x i.
Proof.
  induction l as [|a l IH]; intros k H; [destruct H|].
  cbn in H. destruct H as [<-|H].
  - exists a, k. split; [now left|reflexivity].
  - destruct (IH _ H) as (x & i & Hx & ->). exists x, i. split; [now right|reflexivity].
Qed.

(** X15.  Whatever the three route requests give, [routeFrom] gets its
    options through [assignRouteModes]; it draws no route exactly when no
    option has a geometry; a route it draws is one of the options and has
    a geometry; and as soon as one option has a duration, the route drawn
    first is the fast one, whose duration is the least. *)
Theorem X15_routeFrom_first_route (start : R * R) (shelters : list Shelter)
    (routes : nat -> option RouteResult) :
  exists withModes,
    routeFrom_options start shelters routes = Some withModes /\
    (initialRoute withModes = None <->
     forall o, In o withModes -> geometry o = None) /\
    (forall o, initialRoute withModes = Some o ->
               In o withModes /\ geometry o <> None) /\
    (forall o d, In o withModes -> durationSec o = Some d ->
       exists f df, initialRoute withModes = Some f /\ mode f = fast /\
                    durationSec f = Some df /\ df <= d).
Proof.
  unfold routeFrom_options.
  pose proof (enrichAll_duration_geometry (nearestThree start shelters) routes) as Hinv.
  set (enriched := enrichAll (nearestThree start shelters) routes) in *.
  assert (Hshape : exists withModes,
            assignRouteModes enriched = Some withModes /\
            (forall o, In o withModes -> exists e m, In e enriched /\ o = withMode m e) /\
            (forall o d, In o withModes -> durationSec o = Some d ->
               exists f df, find (fun o => isFast o && hasGeometry o) withModes = Some f /\
                            mode f = fast /\ durationSec f = Some df /\ df <= d)).
  { destruct enriched as [|e0 rest] eqn:E.
    - exists []. split; [reflexivity|]. split; intros o; intros; contradiction.
    - rewrite <- E in *.
      assert (Hc := assignRouteModes_cons e0 rest). rewrite <- E in Hc.
      destruct Hc as (b & _ & (best & Hb & Hmin & _) & Hout).
      eexists. split; [exact Hout|].
      set (g := fun opt index => withMode (if Nat.eqb index b then fast else safe) opt) in *.
      split.
      + intros o Ho. apply in_mapFrom in Ho. destruct Ho as (x & i & Hx & ->).
        eexists x, _. split; [exact Hx|reflexivity].
      + intros o d Ho Hd. apply in_mapFrom in Ho. destruct Ho as (x & i & Hx & ->).
        cbn [durationSec withMode g] in Hd.
        assert (Hnb : ~ beats x best).
        { apply In_nth_error in Hx. destruct Hx as [j Hj].
          apply (Hmin j x); [|exact Hj]. apply nth_error_Some. rewrite Hj. discriminate. }
        unfold beats in Hnb. rewrite Hd in Hnb.
        destruct (durationSec best) as [bd|] eqn:Ebd; [|tauto].
        exists (withMode fast best), bd. split.
        * apply (find_first_fast _ b).
          -- rewrite nth_error_mapFrom, Hb. cbn. unfold g. now rewrite Nat.eqb_refl.
          -- intros i' o' Hi'. rewrite nth_error_mapFrom in Hi'.
             destruct (nth_error enriched i') as [x'|]; [|discriminate].
             cbn in Hi'. injection Hi' as <-. unfold g. cbn [mode withMode].
             destruct (Nat.eqb_spec i' b); split; intros; try congruence; try discriminate.
          -- unfold hasGeometry. cbn [geometry withMode].
             assert (Hgb : geometry best <> None).
             { apply Hinv; [eapply nth_error_In; exact Hb|]. rewrite Ebd. discriminate. }
             destruct (geometry best); [reflexivity|congruence].
        * split; [reflexivity|]. split; [exact Ebd|lra]. }
  destruct Hshape as (withModes & Hout & Hfrom & Hfast).
  exists withModes. split; [exact Hout|]. unfold initialRoute. split; [|split].
  - split.
    + intros H o Ho.
      destruct (find (fun o0 => isFast o0 && hasGeometry o0) withModes); [discriminate|].
      pose proof (find_none _ _ H o Ho) as Hg. unfold hasGeometry in Hg.
      destruct (geometry o); [discriminate|reflexivity].
    + intros H.
      rewrite (find_all_false (fun o0 => isFast o0 && hasGeometry o0)).
      * apply find_all_false. intros o Ho. unfold hasGeometry. now rewrite (H o Ho).
      * intros o Ho. unfold hasGeometry. rewrite (H o Ho). apply andb_false_r.
  - intros o H.
    destruct (find (fun o0 => isFast o0 && hasGeometry o0) withModes) as [f|] eqn:Ef.
    + injection H as <-. apply find_some in Ef. destruct Ef as [Hin Hp].
      split; [exact Hin|]. apply andb_true_iff in Hp. destruct Hp as [_ Hg].
      unfold hasGeometry in Hg. destruct (geometry f); [discriminate|discriminate].
    + apply find_hasGeometry_some, H.
  - intros o d Ho Hd. destruct (Hfast o d Ho Hd) as (f & df & Hf & Hrest).
    exists f, df. rewrite Hf. split; [reflexivity|exact Hrest].
Qed.

Lemma X17_witness :
  exists out b,
    assignRouteModes exampleOptions = Some out /\
    (b < List.length out)%nat /\
    forall i o, nth_error out i = Some o -> (mode o = fast <-> i = b).
Proof. apply (X17_assignRouteModes_one_fast exampleOptions). discriminate. Defined.

Lemma X18_witness :
  exists out b f,
    assignRouteModes exampleOptions = Some out /\
    nth_error out b = Some f /\ mode f = fast /\
    (forall o d, In o exampleOptions -> durationSec o = Some d ->
                 exists df, durationSec f = Some df /\ df <= d) /\
    ((forall o, In o exampleOptions -> durationSec o = None) ->
     forall o, In o exampleOptions -> crowDistance f <= crowDistance o) /\
    (forall j o, (j < b)%nat -> nth_error exampleOptions j = Some o -> beats f o).
Proof. apply (X18_assignRouteModes_fast_is_best exampleOptions). discriminate. Defined.

Local Close Scope R_scope.
Local Open Scope string_scope.

(** ** The PDF export *)

Lemma replaceNonPrintable_printable (line : list N) :
  allChars isPrintableChar (replaceNonPrintable line) = true.
Proof.
  induction line as [|u rest IH]; [reflexivity|].
  cbn [replaceNonPrintable allChars]. rewrite IH, andb_true_r.
  destruct (isPrintableUnit u) eqn:Hu; [|reflexivity].
  unfold isPrintableChar. rewrite N_ascii_embedding; [exact Hu|].
  unfold isPrintableUnit in Hu. apply andb_true_iff in Hu. destruct Hu as [_ Hu].
  apply N.leb_le in Hu. lia.
Qed.

Lemma replaceNonPrintable_length (line : list N) :
  String.length (replaceNonPrintable line) = List.length line.
Proof. induction line as [|u rest IH]; cbn; [reflexivity|now rewrite IH]. Qed.

Lemma trimEnd_printable (s : string) :
  allChars isPrintableChar s = true -> allChars isPrintableChar (trimEnd s) = true.
Proof.
  induction s as [|c rest IH]; [reflexivity|].
  cbn [allChars trimEnd]. intros H. apply andb_true_iff in H. destruct H as [Hc Hr].
  specialize (IH Hr). destruct (trimEnd rest) as [|d t].
  - destruct (isJsSpace c); cbn; [reflexivity|now rewrite Hc].
  - cbn [allChars] in *. now rewrite Hc, IH.
Qed.

Lemma trimEnd_length (s : string) : (String.length (trimEnd s) <= String.length s)%nat.
Proof.
  induction s as [|c rest IH]; [reflexivity|].
  cbn [trimEnd]. destruct (trimEnd rest) as [|d t].
  - destruct (isJsSpace c); cbn; lia.
  - cbn in *. lia.
Qed.

Lemma trimEnd_last (s : string) :
  trimEnd s = EmptyString \/
  exists c, lastChar (trimEnd s) = Some c /\ isJsSpace c = false.
Proof.
  induction s as [|c rest IH]; [now left|].
  cbn [trimEnd]. destruct (trimEnd rest) as [|d t] eqn:E.
  - destruct (isJsSpace c) eqn:Hc; [now left|]. right. exists c. split; [reflexivity|exact Hc].
  - right. destruct IH as [IH|IH]; [discriminate|]. exact IH.
Qed.

Lemma trimEnd_fixed (s : string) (c : ascii) :
  lastChar s = Some c -> isJsSpace c = false -> trimEnd s = s.
Proof.
  induction s as [|a rest IH]; [discriminate|].
  intros Hl Hc. cbn [lastChar] in Hl. cbn [trimEnd]. destruct rest as [|b rest'].
  - injection Hl as Heq. subst a. now rewrite Hc.
  - rewrite (IH Hl Hc). reflexivity.
Qed.

Lemma codeUnits_replace (s : string) :
  allChars isPrintableChar s = true -> replaceNonPrintable (codeUnits s) = s.
Proof.
  induction s as [|c rest IH]; [reflexivity|].
  cbn [allChars codeUnits replaceNonPrintable]. intros H.
  apply andb_true_iff in H. destruct H as [Hc Hr]. unfold isPrintableChar in Hc.
  rewrite Hc, ascii_N_embedding, (IH Hr). reflexivity.
Qed.

Lemma printable_space (c : ascii) :
  isPrintableChar c = true -> isJsSpace c = true -> c = " "%char.
Proof.
  destruct c as [[] [] [] [] [] [] [] []]; vm_compute; intros; congruence.
Qed.

(** A sanitized line is printable ASCII, is not empty, and does not end
    in a blank unless it is the single blank. *)
Lemma sanitizePdfLine_sanitized (line : list N) : isSanitized (sanitizePdfLine line).
Proof.
  unfold sanitizePdfLine.
  pose proof (trimEnd_printable _ (replaceNonPrintable_printable line)) as Hp.
  pose proof (trimEnd_last (replaceNonPrintable line)) as Hlast.
  destruct (trimEnd (replaceNonPrintable line)) as [|c t] eqn:E.
  - cbn [String.length Nat.ltb Nat.leb].
    split; [discriminate|]. split; [reflexivity|now left].
  - cbn [String.length Nat.ltb Nat.leb] in *.
    split; [discriminate|]. split; [exact Hp|]. right.
    destruct Hlast as [|(d & Hd & Hsp)]; [discriminate|].
    exists d. split; [exact Hd|]. intros ->. vm_compute in Hsp. discriminate.
Qed.

(** X20.  A line out of [sanitizePdfLine] is never empty, holds only
    printable ASCII, does not end in a blank unless it is the single
    blank, and is not longer than the line given (or than one character
    for an empty line). *)
Theorem X20_sanitizePdfLine_shape (line : list N) :
  isSanitized (sanitizePdfLine line) /\
  (String.length (sanitizePdfLine line) <= Nat.max 1 (List.length line))%nat.
Proof.
  split; [apply sanitizePdfLine_sanitized|].
  unfold sanitizePdfLine.
  pose proof (trimEnd_length (replaceNonPrintable line)) as Hlen.
  rewrite replaceNonPrintable_length in Hlen.
  destruct (trimEnd (replaceNonPrintable line)) as [|c t];
    cbn [String.length Nat.ltb Nat.leb] in *; lia.
Qed.

(** X21.  [sanitizePdfLine] returns a line that is already sanitized as
    it is, so that sanitizing twice is sanitizing once. *)
Theorem X21_sanitizePdfLine_idempotent (line : list N) :
  (forall s, isSanitized s -> sanitizePdfLine (codeUnits s) = s) /\
  sanitizePdfLine (codeUnits (sanitizePdfLine line)) = sanitizePdfLine line.
Proof.
  assert (Hfix : forall s, isSanitized s -> sanitizePdfLine (codeUnits s) = s).
  { intros s (Hne & Hp & Hl). unfold sanitizePdfLine.
    rewrite (codeUnits_replace s Hp). destruct Hl as [->|(c & Hc & Hns)]; [reflexivity|].
    assert (Hsp : isJsSpace c = false).
    { destruct (isJsSpace c) eqn:E; [|reflexivity]. exfalso. apply Hns.
      apply printable_space; [|exact E].
      clear -Hp Hc. induction s as [|a rest IH]; [discriminate|].
      cbn [allChars] in Hp. apply andb_true_iff in Hp. destruct Hp as [Ha Hr].
      cbn [lastChar] in Hc. destruct rest; [congruence|]. apply IH; assumption. }
    rewrite (trimEnd_fixed s c Hc Hsp). destruct s; [contradiction|reflexivity]. }
  split; [exact Hfix|]. apply Hfix, sanitizePdfLine_sanitized.
Qed.

Lemma replaceAll_app (c : ascii) (rep s t : string) :
  replaceAll c rep (s ++ t) = replaceAll c rep s ++ replaceAll c rep t.
Proof.
  induction s as [|a rest IH]; [reflexivity|].
  cbn [append replaceAll]. rewrite IH. now rewrite string_app_assoc.
Qed.

Lemma escapePdfText_cons (a : ascii) (rest : string) :
  escapePdfText (String a rest) = escapeChar a ++ escapePdfText rest.
Proof.
  unfold escapePdfText, escapeChar. cbn [replaceAll].
  rewrite !replaceAll_app.
  destruct (Ascii.eqb_spec a "\") as [->|H1]; [reflexivity|].
  destruct (Ascii.eqb_spec a "(") as [->|H2]; [reflexivity|].
  destruct (Ascii.eqb_spec a ")") as [->|H3]; [reflexivity|].
  cbn [replaceAll].
  apply Ascii.eqb_neq in H2, H3. rewrite H2. cbn [replaceAll append]. rewrite H3.
  reflexivity.
Qed.

Lemma readLiteral_escaped (depth : nat) (e : ascii) (s : string) :
  readLiteral depth (String "\" (String e s))
  = consFst (unescapeChar e) (readLiteral depth s).
Proof. reflexivity. Qed.

Lemma readLiteral_plain (depth : nat) (c : ascii) (s : string) :
  Ascii.eqb c "\" = false -> Ascii.eqb c "(" = false -> Ascii.eqb c ")" = false ->
  readLiteral depth (String c s) = consFst c (readLiteral depth s).
Proof. intros H1 H2 H3. cbn [readLiteral]. now rewrite H1, H2, H3. Qed.

(** X22.  Text escaped by [escapePdfText] and put between parentheses
    is read back by a PDF reader as the text given, and the reader stops
    at the closing parenthesis written by the caller: no backslash or
    parenthesis of the text ends the string early. *)
Theorem X22_escapePdfText_read_back (line rest : string) :
  readLiteral 0 (escapePdfText line ++ ")" ++ rest) = Some (line, rest).
Proof.
  induction line as [|a line IH]; [reflexivity|].
  rewrite escapePdfText_cons, string_app_assoc. unfold escapeChar.
  set (tail := escapePdfText line ++ ")" ++ rest) in *.
  destruct (Ascii.eqb_spec a "\") as [->|H1].
  { change ("\\" ++ tail) with (String "\" (String "\" tail)).
    rewrite readLiteral_escaped, IH. reflexivity. }
  destruct (Ascii.eqb_spec a "(") as [->|H2].
  { change ("\(" ++ tail) with (String "\" (String "(" tail)).
    rewrite readLiteral_escaped, IH. reflexivity. }
  destruct (Ascii.eqb_spec a ")") as [->|H3].
  { change ("\)" ++ tail) with (String "\" (String ")" tail)).
    rewrite readLiteral_escaped, IH. reflexivity. }
  apply Ascii.eqb_neq in H1, H2, H3.
  change (String a "" ++ tail) with (String a tail).
  rewrite readLiteral_plain, IH by assumption. reflexivity.
Qed.

(** Escaping keeps printable text printable. *)
Lemma escapePdfText_printable (line : string) :
  allChars isPrintableChar line = true ->
  allChars isPrintableChar (escapePdfText line) = true.
Proof.
  induction line as [|a line IH]; [reflexivity|].
  cbn [allChars]. intros H. apply andb_true_iff in H. destruct H as [Ha Hr].
  rewrite escapePdfText_cons, allChars_app, (IH Hr), andb_true_r.
  unfold escapeChar.
  destruct (Ascii.eqb a "\"); [reflexivity|].
  destruct (Ascii.eqb a "("); [reflexivity|].
  destruct (Ascii.eqb a ")"); [reflexivity|].
  cbn [allChars]. now rewrite Ha.
Qed.

Lemma utf8Length_ascii (s : string) :
  allChars isAsciiChar s = true -> utf8Length s = String.length s.
Proof.
  induction s as [|c rest IH]; [reflexivity|].
  cbn [allChars utf8Length String.length]. intros H.
  apply andb_true_iff in H. destruct H as [Hc Hr]. unfold isAsciiChar in Hc.
  now rewrite Hc, (IH Hr).
Qed.

Lemma printable_ascii (s : string) :
  allChars isPrintableChar s = true -> allChars isAsciiChar s = true.
Proof.
  induction s as [|c rest IH]; [reflexivity|].
  cbn [allChars]. intros H. apply andb_true_iff in H. destruct H as [Hc Hr].
  rewrite (IH Hr), andb_true_r. revert Hc.
  destruct c as [[] [] [] [] [] [] [] []]; vm_compute; congruence.
Qed.

Lemma uint_ascii (d : Decimal.uint) :
  allChars isAsciiChar (NilEmpty.string_of_uint d) = true.
Proof. induction d; cbn; try reflexivity; assumption. Qed.

Lemma intToString_ascii (z : Z) : allChars isAsciiChar (intToString z) = true.
Proof.
  unfold intToString, NilZero.string_of_int, NilZero.string_of_uint.
  destruct (Z.to_int z) as [d|d].
  - destruct d; try apply uint_ascii; reflexivity.
  - cbn [allChars]. destruct d; try apply uint_ascii; reflexivity.
Qed.

Lemma fold_pushObject (objs : list string) :
  forall parts len offs,
    fold_left pushObject objs (parts, len, offs)
    = ((parts ++ map chunkOf objs)%list, (len + bytesOf objs)%nat,
       (offs ++ offsetsFrom len objs)%list).
Proof.
  induction objs as [|o objs IH]; intros parts len offs; cbn [fold_left map offsetsFrom bytesOf].
  - now rewrite !app_nil_r, Nat.add_0_r.
  - unfold pushObject at 2. rewrite IH. fold (chunkOf o).
    rewrite <- !app_assoc. cbn [app]. now rewrite Nat.add_assoc.
Qed.

Lemma string_app_nil_r (s : string) : s ++ "" = s.
Proof. induction s as [|c s IH]; cbn; [reflexivity|now rewrite IH]. Qed.

Lemma join_empty (l : list string) : join "" l = concatAll l.
Proof.
  unfold join. induction l as [|x l IH]; [reflexivity|].
  cbn [String.concat concatAll fold_right]. destruct l as [|y l].
  - cbn. now rewrite string_app_nil_r.
  - rewrite IH. reflexivity.
Qed.

Lemma concatAll_app (l1 l2 : list string) :
  concatAll (l1 ++ l2) = concatAll l1 ++ concatAll l2.
Proof.
  induction l1 as [|x l1 IH]; [reflexivity|].
  cbn [app concatAll fold_right]. fold (concatAll (l1 ++ l2)). fold (concatAll l1).
  now rewrite IH, string_app_assoc.
Qed.

Lemma string_length_app (s t : string) :
  String.length (s ++ t) = (String.length s + String.length t)%nat.
Proof. induction s as [|c s IH]; cbn; [reflexivity|now rewrite IH]. Qed.

Lemma substring_skip (p s : string) (n : nat) :
  substring (String.length p) n (p ++ s) = substring 0 n s.
Proof. induction p as [|c p IH]; [reflexivity|]. cbn. exact IH. Qed.

Lemma substring_prefix (q r : string) :
  substring 0 (String.length q) (q ++ r) = q.
Proof.
  induction q as [|c q IH]; cbn.
  - destruct r; reflexivity.
  - now rewrite IH.
Qed.

Lemma chunkOf_length (o : string) :
  allChars isAsciiChar o = true -> utf8Length (chunkOf o) = String.length (chunkOf o).
Proof.
  intros H. apply utf8Length_ascii. unfold chunkOf. rewrite allChars_app, H. reflexivity.
Qed.

Lemma bytesOf_length (objs : list string) :
  allAscii objs -> bytesOf objs = String.length (concatAll (map chunkOf objs)).
Proof.
  induction objs as [|o objs IH]; intros H; [reflexivity|].
  cbn [bytesOf map concatAll fold_right]. fold (concatAll (map chunkOf objs)).
  rewrite string_length_app, chunkOf_length, IH; [reflexivity| |].
  - intros x Hx. apply H. now right.
  - apply H. now left.
Qed.

(** Every offset noted by the loop is the place of its object in the
    text written. *)
Lemma offsets_point (objs : list string) :
  allAscii objs ->
  forall (hdr : string) (k off : nat) (o : string),
    nth_error (offsetsFrom (String.length hdr) objs) k = Some off ->
    nth_error objs k = Some o ->
    exists before after,
      hdr ++ concatAll (map chunkOf objs) = before ++ o ++ after /\
      String.length before = off.
Proof.
  induction objs as [|x objs IH]; intros Hasc hdr k off o Hoff Ho.
  - destruct k; discriminate.
  - cbn [offsetsFrom map concatAll fold_right] in *. fold (concatAll (map chunkOf objs)).
    destruct k as [|k].
    + cbn in Hoff, Ho. injection Hoff as <-. injection Ho as <-.
      exists hdr, (LF ++ concatAll (map chunkOf objs)). split; [|reflexivity].
      unfold chunkOf. now rewrite !string_app_assoc.
    + cbn [nth_error] in Hoff, Ho.
      rewrite chunkOf_length in Hoff by (apply Hasc; now left).
      rewrite <- string_length_app in Hoff.
      destruct (IH (fun y Hy => Hasc y (or_intror Hy)) (hdr ++ chunkOf x) k off o Hoff Ho)
        as (before & after & Heq & Hlen).
      exists before, after. split; [|exact Hlen].
      rewrite <- Heq. now rewrite string_app_assoc.
Qed.

Lemma sanitizePdfLine_printable (line : list N) :
  allChars isPrintableChar (sanitizePdfLine line) = true.
Proof.
  unfold sanitizePdfLine.
  pose proof (trimEnd_printable _ (replaceNonPrintable_printable line)) as Hp.
  destruct (trimEnd (replaceNonPrintable line)); [reflexivity|exact Hp].
Qed.

Lemma textSection_ascii (line : string) (index : nat) :
  allChars isPrintableChar line = true ->
  allChars isAsciiChar (textSection line index) = true.
Proof.
  intros H. unfold textSection. cbv zeta.
  rewrite !allChars_app, intToString_ascii.
  rewrite (printable_ascii _ (escapePdfText_printable line H)). reflexivity.
Qed.

Lemma join_ascii (sep : string) (l : list string) :
  allChars isAsciiChar sep = true ->
  (forall s, In s l -> allChars isAsciiChar s = true) ->
  allChars isAsciiChar (join sep l) = true.
Proof.
  intros Hsep. unfold join. induction l as [|x l IH]; intros H; [reflexivity|].
  cbn [String.concat]. destruct l as [|y l].
  - apply H. now left.
  - rewrite !allChars_app, Hsep, (H x (or_introl eq_refl)). cbn [andb].
    apply IH. intros s Hs. apply H. now right.
Qed.

Lemma pdfContentStream_ascii (lines : list (list N)) :
  allChars isAsciiChar (pdfContentStream lines) = true.
Proof.
  unfold pdfContentStream. rewrite !allChars_app.
  rewrite join_ascii; [reflexivity|reflexivity|].
  intros s Hs. apply in_mapFrom in Hs. destruct Hs as (line & i & Hl & ->).
  apply textSection_ascii. unfold pdfCleaned in Hl. apply in_map_iff in Hl.
  destruct Hl as (raw & <- & _). apply sanitizePdfLine_printable.
Qed.

Lemma pdfObjects_ascii (lines : list (list N)) : allAscii (pdfObjects lines).
Proof.
  intros o Ho. unfold pdfObjects in Ho. cbv zeta in Ho.
  cbn [In] in Ho.
  destruct Ho as [<-|[<-|[<-|[<-|[<-|[]]]]]]; try reflexivity.
  rewrite !allChars_app, intToString_ascii, pdfContentStream_ascii. reflexivity.
Qed.

Lemma xrefEntry_ascii (offset : nat) : allChars isAsciiChar (xrefEntry offset) = true.
Proof.
  unfold xrefEntry, padStart. rewrite !allChars_app, intToString_ascii.
  rewrite andb_true_r. cbn [andb].
  induction (10 - String.length (intToString (Z.of_nat offset)))%nat as [|n IHn];
    [reflexivity|].
  cbn. exact IHn.
Qed.

Lemma fold_xref_ascii (offsets : list nat) :
  forall init, allChars isAsciiChar init = true ->
    allChars isAsciiChar
      (fold_left (fun xref offset => xref ++ xrefEntry offset) offsets init) = true.
Proof.
  induction offsets as [|off offsets IH]; intros init Hinit; [exact Hinit|].
  cbn [fold_left]. apply IH. now rewrite allChars_app, Hinit, xrefEntry_ascii.
Qed.

Lemma pdfXref_ascii (count : nat) (offsets : list nat) :
  allChars isAsciiChar (pdfXref count offsets) = true.
Proof.
  unfold pdfXref. apply fold_xref_ascii.
  rewrite !allChars_app, intToString_ascii. reflexivity.
Qed.

Lemma pdfTrailer_ascii (count xrefOffset : nat) :
  allChars isAsciiChar (pdfTrailer count xrefOffset) = true.
Proof.
  unfold pdfTrailer. rewrite !allChars_app, !intToString_ascii. reflexivity.
Qed.

Lemma concatAll_ascii (l : list string) :
  (forall s, In s l -> allChars isAsciiChar s = true) ->
  allChars isAsciiChar (concatAll l) = true.
Proof.
  induction l as [|x l IH]; intros H; [reflexivity|].
  cbn [concatAll fold_right]. fold (concatAll l).
  rewrite allChars_app, (H x (or_introl eq_refl)), IH; [reflexivity|].
  intros s Hs. apply H. now right.
Qed.

(** The document, taken apart. *)
Lemma buildPdfDocument_parts (lines : list (list N)) :
  let objects := pdfObjects lines in
  let body := pdfHeader ++ concatAll (map chunkOf objects) in
  buildPdfDocument lines
  = body ++ pdfXref 5 (offsetsFrom (String.length pdfHeader) objects)
         ++ pdfTrailer 5 (String.length body).
Proof.
  intros objects body. unfold buildPdfDocument. fold objects.
  rewrite fold_pushObject. cbn [app].
  rewrite join_empty.
  cbn [concatAll fold_right].
  fold (concatAll (map chunkOf objects ++
                   [pdfXref (List.length objects)
                      (offsetsFrom (utf8Length pdfHeader) objects);
                    pdfTrailer (List.length objects)
                      (utf8Length pdfHeader + bytesOf objects)])).
  rewrite concatAll_app.
  assert (Hlen : (utf8Length pdfHeader + bytesOf objects)%nat = String.length body).
  { unfold body. rewrite string_length_app, <- bytesOf_length by apply pdfObjects_ascii.
    reflexivity. }
  rewrite Hlen.
  change (utf8Length pdfHeader) with (String.length pdfHeader).
  change (List.length objects) with 5%nat.
  cbn [concatAll fold_right]. rewrite !string_app_nil_r.
  unfold body. fold (concatAll (map chunkOf objects)).
  now rewrite !string_app_assoc.
Qed.

Lemma offsetsFrom_length (objs : list string) :
  forall len, List.length (offsetsFrom len objs) = List.length objs.
Proof. induction objs as [|o objs IH]; intros len; cbn; [reflexivity|now rewrite IH]. Qed.

Lemma substring_at (before head rest : string) (n : nat) :
  String.length head = n ->
  substring (String.length before) n (before ++ head ++ rest) = head.
Proof. intros <-. rewrite substring_skip. apply substring_prefix. Qed.

Lemma fold_xref_prefix (offsets : list nat) :
  forall init, exists more,
    fold_left (fun xref offset => xref ++ xrefEntry offset) offsets init = init ++ more.
Proof.
  induction offsets as [|x offsets IH]; intros init; cbn [fold_left].
  - exists "". now rewrite string_app_nil_r.
  - destruct (IH (init ++ xrefEntry x)) as [more Hmore].
    exists (xrefEntry x ++ more). now rewrite Hmore, string_app_assoc.
Qed.

(** X23.  In the document of [buildPdfDocument] the cross-reference
    table has five entries, the k-th offset is the position at which the
    text "k 0 obj" starts, and the number behind [startxref] is the
    position of the keyword [xref]. *)
Theorem X23_buildPdfDocument_xref_offsets (lines : list (list N)) :
  let doc := buildPdfDocument lines in
  exists body offsets,
    doc = body ++ pdfXref 5 offsets ++ pdfTrailer 5 (String.length body) /\
    List.length offsets = 5%nat /\
    (forall k off, nth_error offsets k = Some off ->
       substring off 7 doc = intToString (Z.of_nat (S k)) ++ " 0 obj") /\
    substring (String.length body) 4 doc = "xref".
Proof.
  intros doc. subst doc. rewrite buildPdfDocument_parts. cbv zeta.
  set (objects := pdfObjects lines).
  set (body := pdfHeader ++ concatAll (map chunkOf objects)).
  set (offsets := offsetsFrom (String.length pdfHeader) objects).
  set (tail := pdfXref 5 offsets ++ pdfTrailer 5 (String.length body)).
  exists body, offsets. split; [reflexivity|].
  split; [apply (offsetsFrom_length objects)|]. split.
  - intros k off Hk.
    assert (Hlt : (k < 5)%nat).
    { change 5%nat with (List.length objects).
      rewrite <- (offsetsFrom_length objects (String.length pdfHeader)).
      apply nth_error_Some. fold offsets. rewrite Hk. discriminate. }
    assert (Hobj : exists o rest,
               nth_error objects k = Some o /\
               o = (intToString (Z.of_nat (S k)) ++ " 0 obj") ++ rest).
    { unfold objects, pdfObjects. cbv zeta.
      destruct k as [|[|[|[|[|k]]]]]; [..|lia];
        (eexists; eexists; split; [reflexivity|];
         rewrite ?string_app_assoc; reflexivity). }
    destruct Hobj as (o & rest & Ho & Heq).
    destruct (offsets_point objects (pdfObjects_ascii lines) pdfHeader k off o Hk Ho)
      as (before & after & Hbody & Hlen).
    fold body in Hbody. rewrite Hbody, Heq, <- Hlen.
    assert (Hh : String.length (intToString (Z.of_nat (S k)) ++ " 0 obj") = 7%nat).
    { destruct k as [|[|[|[|[|k]]]]]; [reflexivity..|lia]. }
    set (h := intToString (Z.of_nat (S k)) ++ " 0 obj") in *.
    rewrite !string_app_assoc. apply substring_at. exact Hh.
  - unfold tail, pdfXref.
    destruct (fold_xref_prefix offsets
                (("xref" ++ LF ++ "0 " ++ intToString (Z.of_nat (5 + 1)) ++ LF)
                   ++ "0000000000 65535 f " ++ LF)) as [more Hmore].
    rewrite Hmore, !string_app_assoc.
    apply (substring_at body "xref" _ 4). reflexivity.
Qed.

(** X24.  The document of [buildPdfDocument] is pure ASCII, one byte a
    character, and the [/Length] it declares is the length of the content
    stream that stands between [stream] and [endstream]. *)
Theorem X24_buildPdfDocument_stream_length (lines : list (list N)) :
  let doc := buildPdfDocument lines in
  let content := pdfContentStream lines in
  allChars isAsciiChar doc = true /\
  exists before after,
    doc = before ++ "<< /Length " ++ intToString (Z.of_nat (String.length content))
                 ++ " >>" ++ LF ++ "stream" ++ LF ++ content ++ LF ++ "endstream"
                 ++ after.
Proof.
  intros doc content. subst doc. rewrite buildPdfDocument_parts. cbv zeta. split.
  - rewrite !allChars_app, pdfXref_ascii, pdfTrailer_ascii.
    rewrite concatAll_ascii; [reflexivity|].
    intros s Hs. apply in_map_iff in Hs. destruct Hs as (o & <- & Ho).
    unfold chunkOf. rewrite allChars_app, (pdfObjects_ascii lines o Ho). reflexivity.
  - set (objects := pdfObjects lines).
    set (body := pdfHeader ++ concatAll (map chunkOf objects)).
    set (tail := pdfXref 5 _ ++ pdfTrailer 5 _).
    destruct (nth_error (offsetsFrom (String.length pdfHeader) objects) 3) as [off|] eqn:Hoff.
    2:{ apply nth_error_None in Hoff. rewrite offsetsFrom_length in Hoff.
        change (List.length objects) with 5%nat in Hoff. lia. }
    set (o4 := "4 0 obj" ++ LF ++ "<< /Length "
                 ++ intToString (Z.of_nat (utf8Length content)) ++ " >>" ++ LF
                 ++ "stream" ++ LF ++ content ++ LF ++ "endstream" ++ LF ++ "endobj").
    assert (Ho : nth_error objects 3 = Some o4) by reflexivity.
    destruct (offsets_point objects (pdfObjects_ascii lines) pdfHeader 3 off o4 Hoff Ho)
      as (before & after & Hbody & _).
    fold body in Hbody. rewrite Hbody. unfold o4.
    rewrite (utf8Length_ascii content (pdfContentStream_ascii lines)).
    exists (before ++ "4 0 obj" ++ LF), (LF ++ "endobj" ++ after ++ tail).
    rewrite !string_app_assoc. reflexivity.
Qed.

Local Close Scope string_scope.
Local Open Scope Z_scope.

(** ** The busy indicator *)

Lemma busyStep_consistent (st : BusyState) (call : BusyCall) :
  busyConsistent st -> busyConsistent (busyStep st call).
Proof.
  intros [Hp Hb]. destruct call; unfold busyConsistent; cbn.
  - split; [lia|]. symmetry. apply Z.ltb_lt. lia.
  - split; [lia|]. destruct (Z.eqb_spec (Z.max 0 (pendingOperations st - 1)) 0) as [E|E].
    + rewrite E. reflexivity.
    + rewrite Hb. symmetry.
      assert (0 < pendingOperations st) by lia.
      assert (0 < Z.max 0 (pendingOperations st - 1)) by lia.
      rewrite (proj2 (Z.ltb_lt _ _)) by assumption.
      now rewrite (proj2 (Z.ltb_lt _ _)) by assumption.
Qed.

Lemma busyRun_from (calls : list BusyCall) :
  forall st, busyConsistent st ->
    busyConsistent (fold_left busyStep calls st) /\
    pendingOperations (fold_left busyStep calls st)
    = unanswered calls (pendingOperations st).
Proof.
  induction calls as [|call calls IH]; intros st Hst; [split; [exact Hst|reflexivity]|].
  cbn [fold_left]. destruct (IH _ (busyStep_consistent st call Hst)) as [Hc Hp].
  split; [exact Hc|]. rewrite Hp. destruct call; reflexivity.
Qed.

(** X25.  After any sequence of [beginBusy] and [endBusy] the counter of
    pending operations is not negative, it counts the calls of
    [beginBusy] not answered yet, and the busy indicator is on exactly
    when the counter is positive. *)
Theorem X25_busy_tracks_pending (calls : list BusyCall) :
  let st := busyRun calls in
  0 <= pendingOperations st /\
  pendingOperations st = unanswered calls 0 /\
  (busy st = true <-> 0 < pendingOperations st).
Proof.
  intros st. subst st. unfold busyRun.
  destruct (busyRun_from calls busyInitial) as [[Hp Hb] Hu].
  { split; [cbn; lia|reflexivity]. }
  split; [exact Hp|]. split; [exact Hu|].
  rewrite Hb. apply Z.ltb_lt.
Qed.

Local Close Scope Z_scope.
Local Open Scope string_scope.

(** ** The cache of routes *)

Lemma mapGet_mapSet_same (key : string) (value : RouteCacheEntry) (m : RouteCache) :
  mapGet key (mapSet key value m) = Some value.
Proof.
  induction m as [|[k v] m IH]; cbn [mapSet mapGet].
  - now rewrite String.eqb_refl.
  - destruct (String.eqb k key) eqn:E; cbn [mapGet]; rewrite E;
      [reflexivity|exact IH].
Qed.

Lemma mapGet_mapSet_other (key other : string) (value : RouteCacheEntry)
    (m : RouteCache) :
  other <> key -> mapGet other (mapSet key value m) = mapGet other m.
Proof.
  intros Hne. induction m as [|[k v] m IH]; cbn [mapSet mapGet].
  - destruct (String.eqb_spec key other); [congruence|reflexivity].
  - destruct (String.eqb_spec k key) as [->|Hk]; cbn [mapGet].
    + destruct (String.eqb_spec key other); [congruence|reflexivity].
    + destruct (String.eqb k other); [reflexivity|exact IH].
Qed.

Lemma routeOfJson_line (json : OsrmResponse) (e : RouteCacheEntry) :
  routeOfJson json = Some e -> isLineGeometry (ce_geometry e) = true.
Proof.
  unfold routeOfJson.
  destruct (match osrm_code json with Some _ => _ | None => _ end); [discriminate|].
  destruct (match osrm_routes json with Some _ => _ | None => _ end) as [route|];
    [|discriminate].
  destruct (or_geometry route) as [g|]; [|discriminate].
  destruct (isLineGeometry g) eqn:Hg; cbn [negb]; [|discriminate].
  intros H. injection H as <-. exact Hg.
Qed.

Section RouteRequestProperties.

Variable toFixed : R -> nat -> string.
Variable printNumber : R -> string.
Variable router : string -> Completion OsrmHttpResponse.

Local Abbreviation request := (requestRoute toFixed printNumber router).
Local Abbreviation keyOf := (buildRouteCacheKey toFixed).

(** What one request does, by cases: answered from the cache, answered
    with [null], or answered by the router and stored. *)
Lemma requestRoute_cases (start destination : R * R) (cache : RouteCache) :
  (exists cached, mapGet (keyOf start destination) cache = Some cached /\
      request start destination cache = (Some cached, cache, [])) \/
  (mapGet (keyOf start destination) cache = None /\
      request start destination cache
      = (None, cache, [routeUrl printNumber start destination])) \/
  (exists result json,
      mapGet (keyOf start destination) cache = None /\
      routeOfJson json = Some result /\
      request start destination cache
      = (Some result, mapSet (keyOf start destination) result cache,
         [routeUrl printNumber start destination])).
Proof.
  unfold requestRoute. cbv zeta.
  destruct (mapGet _ cache) as [cached|] eqn:Hget.
  - left. now exists cached.
  - right. destruct (router _) as [response|e]; [|now left].
    destruct (http_ok response); cbn [negb]; [|now left].
    destruct (http_json response) as [json|e]; [|now left].
    destruct (routeOfJson json) as [result|] eqn:Hr; [|now left].
    right. now exists result, json.
Qed.

Lemma requestRoute_valid (start destination : R * R) (cache : RouteCache) :
  cacheValid cache -> cacheValid (snd (fst (request start destination cache))).
Proof.
  intros Hv.
  destruct (requestRoute_cases start destination cache)
    as [(cached & Hget & ->)|[(Hget & ->)|(result & json & Hget & Hr & ->)]];
    cbn [fst snd]; try exact Hv.
  intros key e He.
  destruct (String.eqb_spec key (keyOf start destination)) as [->|Hne].
  - rewrite mapGet_mapSet_same in He. injection He as <-.
    eapply routeOfJson_line, Hr.
  - rewrite mapGet_mapSet_other in He by exact Hne. eapply Hv, He.
Qed.

(** X26.  One request of a route fetches at most one URL, and none when
    the cache has an entry under its key; a request answered with [null]
    leaves the cache as it was; and once a request is answered with a
    route, every later request with the same key (the same four
    coordinates at five decimals) is answered with that very route, from
    the cache, without a fetch. *)
Theorem X26_requestRoute_answers_from_cache
    (start destination start' destination' : R * R) (cache : RouteCache) :
  keyOf start' destination' = keyOf start destination ->
  let '(result, cache', urls) := request start destination cache in
  (forall cached, mapGet (keyOf start destination) cache = Some cached ->
     result = Some cached /\ cache' = cache /\ urls = []) /\
  (mapGet (keyOf start destination) cache = None ->
     urls = [routeUrl printNumber start destination]) /\
  (result = None -> cache' = cache) /\
  (forall e, result = Some e ->
     request start' destination' cache' = (Some e, cache', [])).
Proof.
  intros Hkey.
  destruct (requestRoute_cases start destination cache)
    as [(cached & Hget & ->)|[(Hget & ->)|(result & json & Hget & Hr & ->)]].
  - split; [|split; [|split]].
    + intros c Hc. rewrite Hget in Hc. injection Hc as <-. now repeat split.
    + intros Hn. rewrite Hget in Hn. discriminate.
    + discriminate.
    + intros e He. injection He as <-. unfold requestRoute. cbv zeta.
      rewrite Hkey, Hget. reflexivity.
  - split; [|split; [|split]].
    + intros c Hc. rewrite Hget in Hc. discriminate.
    + reflexivity.
    + reflexivity.
    + discriminate.
  - split; [|split; [|split]].
    + intros c Hc. rewrite Hget in Hc. discriminate.
    + reflexivity.
    + discriminate.
    + intros e He. injection He as <-. unfold requestRoute. cbv zeta.
      rewrite Hkey, mapGet_mapSet_same. reflexivity.
Qed.

(** X27.  A request changes the cache under its own key only: what the
    cache holds under any other key is the same before and after. *)
Theorem X27_requestRoute_other_keys_kept (start destination : R * R)
    (cache : RouteCache) (other : string) :
  other <> keyOf start destination ->
  mapGet other (snd (fst (request start destination cache))) = mapGet other cache.
Proof.
  intros Hne.
  destruct (requestRoute_cases start destination cache)
    as [(cached & Hget & ->)|[(Hget & ->)|(result & json & Hget & Hr & ->)]];
    cbn [fst snd]; try reflexivity.
  apply mapGet_mapSet_other, Hne.
Qed.

(** X28.  Whatever the router answers, after any sequence of requests
    from an empty cache every cached route has a geometry of type
    LineString or MultiLineString. *)
Theorem X28_requestRoute_caches_lines_only
    (requests : list ((R * R) * (R * R))) (key : string) (e : RouteCacheEntry) :
  mapGet key (requestRoutes toFixed printNumber router requests []) = Some e ->
  gj_type (ce_geometry e) = "LineString" \/
  gj_type (ce_geometry e) = "MultiLineString".
Proof.
  assert (Hgen : forall cache, cacheValid cache ->
            cacheValid (requestRoutes toFixed printNumber router requests cache)).
  { induction requests as [|[s d] requests IH]; intros cache Hv; [exact Hv|].
    cbn [requestRoutes]. apply IH, requestRoute_valid, Hv. }
  intros He.
  assert (Hempty : cacheValid []) by (intros k x H; discriminate H).
  assert (Hline := Hgen [] Hempty key e He).
  unfold isLineGeometry in Hline. apply orb_true_iff in Hline.
  destruct Hline as [H|H]; apply String.eqb_eq in H; [now left|now right].
Qed.

End RouteRequestProperties.

Lemma X26_witness :
  let '(result, cache', urls) :=
    requestRoute fixedPrinter constPrinter lineRouter (0%R, 0%R) (1%R, 1%R) [] in
  (forall cached,
     mapGet (buildRouteCacheKey fixedPrinter (0%R, 0%R) (1%R, 1%R)) [] = Some cached ->
     result = Some cached /\ cache' = [] /\ urls = []) /\
  (mapGet (buildRouteCacheKey fixedPrinter (0%R, 0%R) (1%R, 1%R)) [] = None ->
     urls = [routeUrl constPrinter (0%R, 0%R) (1%R, 1%R)]) /\
  (result = None -> cache' = []) /\
  (forall e, result = Some e ->
     requestRoute fixedPrinter constPrinter lineRouter (1%R, 1%R) (0%R, 0%R) cache'
     = (Some e, cache', [])).
Proof.
  apply (X26_requestRoute_answers_from_cache fixedPrinter constPrinter lineRouter
           (0%R, 0%R) (1%R, 1%R) (1%R, 1%R) (0%R, 0%R) []).
  reflexivity.
Defined.

Lemma X27_witness :
  mapGet "elsewhere"
    (snd (fst (requestRoute fixedPrinter constPrinter lineRouter
                 (0%R, 0%R) (1%R, 1%R) [])))
  = mapGet "elsewhere" [].
Proof.
  apply (X27_requestRoute_other_keys_kept fixedPrinter constPrinter lineRouter
           (0%R, 0%R) (1%R, 1%R) [] "elsewhere").
  discriminate.
Defined.

Lemma X28_witness :
  gj_type (ce_geometry {| ce_geometry := {| gj_type := "LineString";
                                            gj_coordinates := [] |};
                          ce_distance := None; ce_duration := None |})
  = "LineString" \/
  gj_type (ce_geometry {| ce_geometry := {| gj_type := "LineString";
                                            gj_coordinates := [] |};
                          ce_distance := None; ce_duration := None |})
  = "MultiLineString".
Proof.
  apply (X28_requestRoute_caches_lines_only fixedPrinter constPrinter lineRouter
           [((0%R, 0%R), (1%R, 1%R))] "29.76043,29.76043->29.76043,29.76043").
  reflexivity.
Defined.
